(** * Substance document core: transactions, history and annotation queries

    A shallow embedding of [src/document/document.js].  The document is a
    mutable JavaScript object; here it is a record threaded through a state
    monad whose computations may also throw, keeping the state reached at the
    point of the [throw] (as a JavaScript exception leaves the object).

    The collaborators of [document.js] that live in other files of the
    repository (the data store, the operations, [TransactionDocument],
    [DocumentChange], the selections and the indices) are modelled from the
    specification; each such definition says so in its doc comment. *)

From Stdlib Require Import ZArith String List Bool.
From stdpp Require Import base option list strings gmap fin_maps.

Local Open Scope string_scope.
Local Open Scope list_scope.

(** ** JavaScript values *)

(** A path [[nodeId, property]]. *)
Definition path : Type := string * string.

(** An argument that a caller may leave out ([undefined]), pass as [null], or
    give.  [undefined] and [null] are the falsy ways of passing an object. *)
Inductive arg (A : Type) : Type :=
| Undefined
| Null
| Given (a : A).
Arguments Undefined {A}.
Arguments Null {A}.
Arguments Given {A} a.

(** [x || dflt] for an object-valued argument. *)
Definition or_default {A} (x : arg A) (dflt : A) : A :=
  match x with
  | Given a => a
  | _ => dflt
  end.

(** Modelled from the spec: the selection classes are not among the sources.
    Section 4.K gives two variants and a distinct null selection, and the
    fields of each. *)
Inductive selection : Type :=
| NullSelection
| PropertySelection (p : path) (startOffset endOffset : nat) (reversed : bool)
| ContainerSelection (container : string)
    (startPath : path) (startOffset : nat)
    (endPath : path) (endOffset : nat) (reversed : bool).

(** Modelled from the spec: [sel.isPropertySelection()], [sel.getPath()],
    [sel.getStartOffset()] and [sel.getEndOffset()] of the selection classes. *)
Definition isPropertySelection (sel : selection) : bool :=
  match sel with
  | PropertySelection _ _ _ _ => true
  | _ => false
  end.

(** The values a property or a state entry can hold: JSON scalars, a list of
    node ids, and selection objects (the state kept before and after a
    transaction is a selection snapshot). *)
Inductive value : Type :=
| VNull
| VBool (b : bool)
| VNum (n : Z)
| VStr (s : string)
| VIds (ids : list string)
| VSel (sel : selection).

(** JavaScript truthiness, as [if (x)] tests it. *)
Definition truthy (v : value) : bool :=
  match v with
  | VNull => false
  | VBool b => b
  | VNum n => negb (n =? 0)%Z
  | VStr s => negb (String.eqb s "")
  | VIds _ => true
  | VSel _ => true
  end.

(** A plain object used as a string-keyed map: the before and after state of a
    transaction and the [info] bag handed to listeners. *)
Abbreviation state := (gmap string value).
Abbreviation info := (gmap string value).

#[global] Instance selection_eq_dec : EqDecision selection.
Proof. solve_decision. Defined.

#[global] Instance value_eq_dec : EqDecision value.
Proof. solve_decision. Defined.

(** ** The data store and its operations (modelled from the spec) *)

(** Modelled from the spec: the node JSON form [{id, type, ...properties}] of
    section 6, as [create] receives it and as a [delete] operation captures
    it. *)
Record node : Type := Node {
  node_id : string;
  node_type : string;
  node_props : gmap string value
}.

(** What the store keeps under a node's id: its type and its properties.  The
    id is the key and is not repeated in the entry, so a stored node's id is
    its key by construction (invariant 1 of section 3). *)
Record entry : Type := Entry {
  entry_type : string;
  entry_props : gmap string value
}.

#[global] Instance node_eq_dec : EqDecision node.
Proof. solve_decision. Defined.

#[global] Instance entry_eq_dec : EqDecision entry.
Proof. solve_decision. Defined.

(** Modelled from the spec: the store is a mapping [id -> node] (section
    4.B). *)
Abbreviation store := (gmap string entry).

Definition entry_of (n : node) : entry :=
  {| entry_type := node_type n; entry_props := node_props n |}.

Definition node_of (id : string) (e : entry) : node :=
  {| node_id := id; node_type := entry_type e; node_props := entry_props e |}.

Definition set_prop (e : entry) (prop : string) (v : value) : entry :=
  {| entry_type := entry_type e; entry_props := <[prop := v]> (entry_props e) |}.

(** Modelled from the spec: [data.get(id)]. *)
Definition data_get (s : store) (id : string) : option node :=
  node_of id <$> s !! id.

(** Modelled from the spec: the typed diff of an [update] (section 3,
    lifecycles; section 6, wire form): a string splice, a list splice or a
    number delta.  A splice names what it removes, so the diff can be inverted
    without consulting the store (section 4.C). *)
Inductive diff : Type :=
| StringSplice (pos : nat) (removed inserted : string)
| ListSplice (pos : nat) (removed inserted : list string)
| NumberDelta (delta : Z).

(** Modelled from the spec: the four operations of section 4.C, each with the
    state it captures when applied. *)
Inductive op : Type :=
| OpCreate (n : node)
| OpDelete (n : node)
| OpSet (p : path) (val original : value)
| OpUpdate (p : path) (d : diff).

#[global] Instance diff_eq_dec : EqDecision diff.
Proof. solve_decision. Defined.

#[global] Instance op_eq_dec : EqDecision op.
Proof. solve_decision. Defined.

(** Replace [removed], found at [pos], by [inserted]; an offset out of range or
    a text that is not there is an invalid update. *)
Definition splice {A} `{EqDecision A}
    (pos : nat) (removed inserted l : list A) : option (list A) :=
  if bool_decide (pos <= length l /\ take (length removed) (drop pos l) = removed)
  then Some (take pos l ++ inserted ++ drop (pos + length removed) l)
  else None.

Definition apply_diff (d : diff) (v : value) : option value :=
  match d, v with
  | StringSplice pos removed inserted, VStr s =>
      l ← splice pos (list_ascii_of_string removed)
             (list_ascii_of_string inserted) (list_ascii_of_string s);
      Some (VStr (string_of_list_ascii l))
  | ListSplice pos removed inserted, VIds ids =>
      VIds <$> splice pos removed inserted ids
  | NumberDelta delta, VNum n => Some (VNum (n + delta))
  | _, _ => None
  end.

Definition invert_diff (d : diff) : diff :=
  match d with
  | StringSplice pos removed inserted => StringSplice pos inserted removed
  | ListSplice pos removed inserted => ListSplice pos inserted removed
  | NumberDelta delta => NumberDelta (- delta)
  end.

(** Modelled from the spec: the inverse of each operation (table of section
    4.C). *)
Definition invert_op (o : op) : op :=
  match o with
  | OpCreate n => OpDelete n
  | OpDelete n => OpCreate n
  | OpSet p val original => OpSet p original val
  | OpUpdate p d => OpUpdate p (invert_diff d)
  end.

(** Modelled from the spec: [data.create(nodeData)], [data.delete(id)],
    [data.set(path, value)] and [data.update(path, diff)] of section 4.B.  Each
    returns the operation it applied, carrying what it captured, and the new
    store; [None] is the failure [InvalidOperation] (an id that is taken or
    unknown, a property that is not there, a diff of the wrong type or out of
    range). *)
Definition data_create (n : node) (s : store) : option (op * store) :=
  match s !! node_id n with
  | Some _ => None
  | None => Some (OpCreate n, <[node_id n := entry_of n]> s)
  end.

Definition data_delete (id : string) (s : store) : option (op * store) :=
  e ← s !! id;
  Some (OpDelete (node_of id e), delete id s).

Definition data_set (p : path) (v : value) (s : store) : option (op * store) :=
  e ← s !! p.1;
  original ← entry_props e !! p.2;
  Some (OpSet p v original, <[p.1 := set_prop e p.2 v]> s).

Definition data_update (p : path) (d : diff) (s : store) : option (op * store) :=
  e ← s !! p.1;
  old ← entry_props e !! p.2;
  new ← apply_diff d old;
  Some (OpUpdate p d, <[p.1 := set_prop e p.2 new]> s).

(** Modelled from the spec: [data.apply(op)], replaying an operation. *)
Definition data_apply (o : op) (s : store) : option store :=
  snd <$>
    match o with
    | OpCreate n => data_create n s
    | OpDelete n => data_delete (node_id n) s
    | OpSet p val _ => data_set p val s
    | OpUpdate p d => data_update p d s
    end.

(** [o] is the operation the store records when it goes from [s] to [s']:
    replaying [o] on [s] captures exactly what [o] carries. *)
Definition records (o : op) (s s' : store) : Prop :=
  match o with
  | OpCreate n => data_create n s
  | OpDelete n => data_delete (node_id n) s
  | OpSet p val _ => data_set p val s
  | OpUpdate p d => data_update p d s
  end = Some (o, s').

#[global] Instance records_dec o s s' : Decision (records o s s').
Proof. unfold records. apply _. Defined.

(** The operations [ops], recorded one after the other from [s], lead to the
    returned store. *)
Fixpoint replay_recorded (ops : list op) (s : store) : option store :=
  match ops with
  | [] => Some s
  | o :: ops' =>
      s' ← data_apply o s;
      if bool_decide (records o s s') then replay_recorded ops' s' else None
  end.

(** ** Changes, the stage and the document *)

(** Modelled from the spec: [DocumentChange] (section 4.H), an ordered list of
    operations with the state before and after; [document.js] builds it with
    [new DocumentChange(ops, beforeState, afterState)] and reads [.ops]. *)
Record DocumentChange : Type := {
  ops : list op;
  before : state;
  after : state
}.

(** Modelled from the spec: [change.invert()] inverts each operation in
    reverse order (section 4.H); the state after the original change is the
    state before its inverse. *)
Definition invert (c : DocumentChange) : DocumentChange :=
  {| ops := invert_op <$> reverse (ops c); before := after c; after := before c |}.

(** Modelled from the spec: the state of a [TransactionDocument] (section
    4.G): a clone of the store, the operations buffered since the transaction
    started, and the state given to [startTransaction] ([this.stage.before] in
    [document.js]). *)
Record TransactionDocument : Type := {
  stage_data : store;
  stage_ops : list op;
  stage_before : state
}.

(** What listeners and the console receive, in order. *)
Inductive event : Type :=
| TransactionStarted (tx : TransactionDocument)
| ProxyDocumentChanged (proxy : string) (change : DocumentChange) (i : info)
| DocumentChanged (change : DocumentChange) (i : info).

(** The fields of a [Document] that [document.js] reads and writes.  [stage]
    is [None] while the constructor has not yet built the stage; [emitted] and
    [console] record what the document sends out. *)
Record Document : Type := {
  data : store;
  stage : option TransactionDocument;
  isTransacting : bool;
  done : list DocumentChange;
  undone : list DocumentChange;
  FORCE_TRANSACTIONS : bool;
  emitted : list event;
  console : list string
}.

Definition set_data (s : store) (d : Document) : Document :=
  {| data := s; stage := stage d; isTransacting := isTransacting d;
     done := done d; undone := undone d;
     FORCE_TRANSACTIONS := FORCE_TRANSACTIONS d;
     emitted := emitted d; console := console d |}.

Definition set_stage (st : option TransactionDocument) (d : Document) : Document :=
  {| data := data d; stage := st; isTransacting := isTransacting d;
     done := done d; undone := undone d;
     FORCE_TRANSACTIONS := FORCE_TRANSACTIONS d;
     emitted := emitted d; console := console d |}.

Definition set_isTransacting (b : bool) (d : Document) : Document :=
  {| data := data d; stage := stage d; isTransacting := b;
     done := done d; undone := undone d;
     FORCE_TRANSACTIONS := FORCE_TRANSACTIONS d;
     emitted := emitted d; console := console d |}.

Definition set_done (l : list DocumentChange) (d : Document) : Document :=
  {| data := data d; stage := stage d; isTransacting := isTransacting d;
     done := l; undone := undone d;
     FORCE_TRANSACTIONS := FORCE_TRANSACTIONS d;
     emitted := emitted d; console := console d |}.

Definition set_undone (l : list DocumentChange) (d : Document) : Document :=
  {| data := data d; stage := stage d; isTransacting := isTransacting d;
     done := done d; undone := l;
     FORCE_TRANSACTIONS := FORCE_TRANSACTIONS d;
     emitted := emitted d; console := console d |}.

Definition set_FORCE_TRANSACTIONS (b : bool) (d : Document) : Document :=
  {| data := data d; stage := stage d; isTransacting := isTransacting d;
     done := done d; undone := undone d;
     FORCE_TRANSACTIONS := b;
     emitted := emitted d; console := console d |}.

Definition set_emitted (l : list event) (d : Document) : Document :=
  {| data := data d; stage := stage d; isTransacting := isTransacting d;
     done := done d; undone := undone d;
     FORCE_TRANSACTIONS := FORCE_TRANSACTIONS d;
     emitted := l; console := console d |}.

Definition set_console (l : list string) (d : Document) : Document :=
  {| data := data d; stage := stage d; isTransacting := isTransacting d;
     done := done d; undone := undone d;
     FORCE_TRANSACTIONS := FORCE_TRANSACTIONS d;
     emitted := emitted d; console := l |}.

(** ** Methods as computations on the document *)

(** The errors [document.js] and its collaborators raise. *)
Inductive error : Type :=
| TransformationRequired
| NestedTransaction
| UseATransaction
| NotInTransaction
| ReplayDuringTransaction
| InvalidOperation
| TypeError.

(** The text of each [new Error(...)] of [document.js]. *)
Definition message (e : error) : string :=
  match e with
  | TransformationRequired =>
      "Document.transaction() requires a transformation function."
  | NestedTransaction => "Nested transactions are not supported."
  | UseATransaction => "Use a transaction!"
  | NotInTransaction => "Not in a transaction."
  | ReplayDuringTransaction =>
      "Can not replay a document change during transaction."
  | InvalidOperation => "InvalidOperation"
  | TypeError => "TypeError"
  end.

(** How a call ends: it returns, or it throws. *)
Inductive outcome (A : Type) : Type :=
| Ret (a : A)
| Throw (e : error).
Arguments Ret {A} a.
Arguments Throw {A} e.

(** A method of the document: from the document's state to the call's outcome
    and the state it leaves, also when it throws. *)
Definition M (A : Type) : Type := Document -> outcome A * Document.

Definition ret {A} (a : A) : M A := fun d => (Ret a, d).

Definition throw {A} (e : error) : M A := fun d => (Throw e, d).

Definition bind {A B} (m : M A) (f : A -> M B) : M B :=
  fun d =>
    match m d with
    | (Ret a, d') => f a d'
    | (Throw e, d') => (Throw e, d')
    end.

#[global] Instance M_ret : MRet M := @ret.
#[global] Instance M_bind : MBind M := fun A B f m => bind m f.

(** [this.field]. *)
Definition this {A} (field : Document -> A) : M A := fun d => (Ret (field d), d).

(** [this.field = v], through the field's setter. *)
Definition assign (setter : Document -> Document) : M unit :=
  fun d => (Ret tt, setter d).

(** [try { body } finally { fin }]: [fin] runs however [body] ends; the call
    ends as [body] did unless [fin] throws. *)
Definition try_finally {A} (body : M A) (fin : M unit) : M A :=
  fun d =>
    let '(r, d1) := body d in
    match fin d1 with
    | (Ret _, d2) => (r, d2)
    | (Throw e, d2) => (Throw e, d2)
    end.

(** [_.each(list, f)]. *)
Fixpoint each {A} (f : A -> M unit) (l : list A) : M unit :=
  match l with
  | [] => ret tt
  | x :: l' => f x ;; each f l'
  end.

(** [array.pop()]: the last element and the array without it, [None] (JavaScript's
    [undefined]) on an empty array, which it leaves as it is. *)
Definition pop {A} (l : list A) : option (A * list A) :=
  match reverse l with
  | [] => None
  | x :: r => Some (x, reverse r)
  end.

(** [this.emit(...)] and [console.error(...)]. *)
Definition emit (e : event) : M unit :=
  fun d => (Ret tt, set_emitted (emitted d ++ [e]) d).

Definition console_error (msg : string) : M unit :=
  fun d => (Ret tt, set_console (console d ++ [msg]) d).

(** [_.clone(beforeState)]: a shallow copy, which a value of the model is. *)
Definition clone {A} (x : A) : A := x.

(** The stage of the document ([this.stage]); reading a member of a stage
    that is not there yet is a [TypeError]. *)
Definition the_stage : M TransactionDocument :=
  fun d =>
    match stage d with
    | Some tx => (Ret tx, d)
    | None => (Throw TypeError, d)
    end.

Definition put_stage (tx : TransactionDocument) : M unit :=
  assign (set_stage (Some tx)).

(** ** The stage's methods (modelled from the spec) *)

(** Modelled from the spec: a mutation on the stage applies to the stage's
    store; the stage buffers the operation while a transaction is active
    (section 4.G) and only mirrors it otherwise, since operations outside a
    transaction are not recorded (invariant 6 of section 3). *)
Definition stage_mutate (f : store -> option (op * store)) : M unit :=
  tx ← the_stage;
  match f (stage_data tx) with
  | None => throw InvalidOperation
  | Some (o, s') =>
      active ← this isTransacting;
      put_stage {| stage_data := s';
                   stage_ops := if active : bool then stage_ops tx ++ [o]
                                else stage_ops tx;
                   stage_before := stage_before tx |}
  end.

Definition stage_create (nodeData : node) : M unit :=
  stage_mutate (data_create nodeData).

Definition stage_delete (nodeId : string) : M unit :=
  stage_mutate (data_delete nodeId).

Definition stage_set (p : path) (v : value) : M unit :=
  stage_mutate (data_set p v).

Definition stage_update (p : path) (d : diff) : M unit :=
  stage_mutate (data_update p d).

(** Modelled from the spec: [stage.getOperations()], the buffered list. *)
Definition stage_getOperations : M (list op) :=
  tx ← the_stage; mret (stage_ops tx).

(** Modelled from the spec: [stage.reset()] forgets the buffered operations
    and the before state; the stage's store stays as it is ("the stage is not
    reset by replaying", section 4.G). *)
Definition stage_reset : M unit :=
  tx ← the_stage;
  put_stage {| stage_data := stage_data tx; stage_ops := []; stage_before := ∅ |}.

(** Modelled from the spec: one operation replayed on the stage's store. *)
Definition stage_apply_op (o : op) : M unit :=
  tx ← the_stage;
  match data_apply o (stage_data tx) with
  | None => throw InvalidOperation
  | Some s' =>
      put_stage {| stage_data := s'; stage_ops := stage_ops tx;
                   stage_before := stage_before tx |}
  end.

(** Modelled from the spec: [stage.apply(documentChange)] replays the change
    on the stage's store ("we apply everything doubled, to keep the staging
    clone up2date", [document.js]). *)
Definition stage_apply (c : DocumentChange) : M unit :=
  the_stage ;; each stage_apply_op (ops c).

(** Modelled from the spec: [tx.loadSeed(seed)] creates the nodes of a
    snapshot [{schema, nodes}] (section 6) on the stage. *)
Definition stage_loadSeed (seed : list node) : M unit :=
  each stage_create seed.

(** ** The live store's primitives (modelled from the spec) *)

(** Modelled from the spec: [this._updateContainers(op)] of the abstract
    document.  Containers are nodes of the store (section 4.F) and hold no
    state of their own, so there is nothing to bring up to date. *)
Definition _updateContainers (o : op) : M unit := ret tt.

(** Modelled from the spec: [this._create], [this._delete], [this._set] and
    [this._update] of the abstract document run the store's primitive on the
    live store. *)
Definition live_mutate (f : store -> option (op * store)) : M unit :=
  s ← this data;
  match f s with
  | None => throw InvalidOperation
  | Some (o, s') => assign (set_data s') ;; _updateContainers o
  end.

Definition _create (nodeData : node) : M unit :=
  live_mutate (data_create nodeData).

Definition _delete (nodeId : string) : M unit :=
  live_mutate (data_delete nodeId).

Definition _set (p : path) (v : value) : M unit :=
  live_mutate (data_set p v).

Definition _update (p : path) (d : diff) : M unit :=
  live_mutate (data_update p d).

(** Modelled from the spec: [this.data.apply(op)] on the live store. *)
Definition live_apply_op (o : op) : M unit :=
  s ← this data;
  match data_apply o s with
  | None => throw InvalidOperation
  | Some s' => assign (set_data s')
  end.

(** ** [document.js]: the private methods *)

(** The callback of [_.each] in [_apply]: one operation on the live store. *)
Definition apply_live (o : op) : M unit :=
  live_apply_op o ;; _updateContainers o.

(** The second argument of [_apply]. *)
Inductive apply_mode : Type :=
| ApplyBoth
| SkipStage.

(** [Document._apply(documentChange, mode)]. *)
Definition _apply (documentChange : DocumentChange) (mode : apply_mode) : M unit :=
  active ← this isTransacting;
  if active : bool then throw ReplayDuringTransaction
  else
    match mode with
    | SkipStage => ret tt
    | ApplyBoth => stage_apply documentChange
    end ;;
    each apply_live (ops documentChange).

(** [Document._notifyChangeListeners(documentChange, info)]: the one event
    proxy of the constructor (['path']), then the document's own event. *)
Definition _notifyChangeListeners
    (documentChange : DocumentChange) (i : arg info) : M unit :=
  let i := or_default i ∅ in
  emit (ProxyDocumentChanged "path" documentChange i) ;;
  emit (DocumentChanged documentChange i).

(** [Document._saveTransaction(beforeState, afterState, info)]. *)
Definition _saveTransaction
    (beforeState afterState : state) (i : arg info) : M unit :=
  active ← this isTransacting;
  if negb active then throw NotInTransaction
  else
    assign (set_isTransacting false) ;;
    ops ← stage_getOperations;
    let documentChange :=
      {| ops := ops; before := beforeState; after := afterState |} in
    _apply documentChange SkipStage ;;
    d ← this done;
    assign (set_done (d ++ [documentChange])) ;;
    assign (set_undone []) ;;
    _notifyChangeListeners documentChange i.

(** [Document._cancelTransaction()]. *)
Definition _cancelTransaction : M unit :=
  active ← this isTransacting;
  if negb active then throw NotInTransaction
  else assign (set_isTransacting false).

(** ** Ending a transaction on the stage (modelled from the spec) *)

(** Modelled from the spec: [tx.save(afterState, info)] commits (section 4.G:
    the buffered list is wrapped in a change carrying the before state and
    [afterState], through [_saveTransaction]) and leaves the stage idle. *)
Definition stage_save (afterState : state) (i : arg info) : M unit :=
  tx ← the_stage;
  _saveTransaction (stage_before tx) afterState i ;;
  stage_reset.

(** Modelled from the spec: [tx.cancel()] reverts the stage "by applying the
    inverse of each buffered op in reverse order" (section 4.G) and leaves the
    transaction through [_cancelTransaction]. *)
Definition stage_cancel : M unit :=
  tx ← the_stage;
  each stage_apply_op (invert_op <$> reverse (stage_ops tx)) ;;
  _cancelTransaction ;;
  stage_reset.

(** Modelled from the spec: [tx.finish()] cancels a transaction that is still
    active ("save automatically if not yet saved or cancelled",
    [document.js]; a transformation that throws has its stage reverted,
    section 5). *)
Definition stage_finish : M unit :=
  active ← this isTransacting;
  if active : bool then stage_cancel else ret tt.

(** ** [document.js]: the public methods *)

(** [Document.startTransaction(beforeState)]; the stage it returns is the
    document's [stage]. *)
Definition startTransaction (beforeState : arg state) : M unit :=
  active ← this isTransacting;
  if active : bool then throw NestedTransaction
  else
    assign (set_isTransacting true) ;;
    tx ← the_stage;
    put_stage {| stage_data := stage_data tx; stage_ops := stage_ops tx;
                 stage_before := or_default beforeState ∅ |} ;;
    tx ← the_stage;
    emit (TransactionStarted tx).

(** The loop of [transaction] over the keys of [beforeState]: a key takes the
    transformation's value when [result[key]] is truthy and keeps the value
    of [beforeState] otherwise. *)
Definition afterState_of (beforeState result : state) : state :=
  map_imap
    (fun key b =>
       Some match result !! key with
            | Some r => if truthy r then r else b
            | None => b
            end)
    beforeState.

(** The value of [afterState] when the loop ends.  Reading [result[key]] of a
    result that is [undefined] or [null] is a [TypeError]; it is read once
    per key of [beforeState]. *)
Definition merge_afterState (beforeState : arg state) (result : arg state)
    : M state :=
  let b := or_default beforeState ∅ in
  match result with
  | Given r => ret (afterState_of b r)
  | _ => if bool_decide (b = ∅) then ret ∅ else throw TypeError
  end.

(** A user-supplied transformation: it acts on the stage and returns the
    after-state mapping, or nothing. *)
Definition transformation : Type := M (arg state).

(** The ways [transaction] is called: by the number of its arguments.  An
    argument in the place of the transformation that is not a function is
    [None]. *)
Inductive arguments : Type :=
| Arguments1 (a0 : option transformation)
| Arguments2 (a0 : arg state) (a1 : option transformation)
| Arguments3 (a0 : arg state) (a1 : arg info) (a2 : option transformation).

(** [Document.transaction(beforeState, eventData, transformation)]. *)
Definition transaction (args : arguments) : M unit :=
  let '(beforeState, eventData, transformation) :=
    match args with
    | Arguments1 a0 => (Given ∅, Given ∅, a0)
    | Arguments2 a0 a1 => (a0, Given ∅, a1)
    | Arguments3 a0 a1 a2 => (a0, Given (or_default a1 ∅), a2)
    end in
  match transformation with
  | None => throw TransformationRequired
  | Some transformation =>
      startTransaction (clone beforeState) ;;
      try_finally
        (result ← transformation;
         afterState ← merge_afterState beforeState result;
         active ← this isTransacting;
         if active : bool then stage_save afterState eventData else ret tt)
        stage_finish
  end.

(** [Document.create(nodeData)]; it returns [this.data.get(nodeData.id)]. *)
Definition create (nodeData : node) : M (option node) :=
  force ← this FORCE_TRANSACTIONS;
  if force : bool then throw UseATransaction
  else
    active ← this isTransacting;
    (if active : bool then stage_create nodeData
     else
       st ← this stage;
       (if st is Some _ then stage_create nodeData else ret tt) ;;
       _create nodeData) ;;
    s ← this data;
    ret (data_get s (node_id nodeData)).

(** [Document.delete(nodeId)]. *)
Definition delete (nodeId : string) : M unit :=
  force ← this FORCE_TRANSACTIONS;
  if force : bool then throw UseATransaction
  else
    active ← this isTransacting;
    if active : bool then stage_delete nodeId
    else
      st ← this stage;
      (if st is Some _ then stage_delete nodeId else ret tt) ;;
      _delete nodeId.

(** [Document.set(path, value)]. *)
Definition set (p : path) (v : value) : M unit :=
  force ← this FORCE_TRANSACTIONS;
  if force : bool then throw UseATransaction
  else
    active ← this isTransacting;
    if active : bool then stage_set p v
    else
      st ← this stage;
      (if st is Some _ then stage_set p v else ret tt) ;;
      _set p v.

(** [Document.update(path, diff)]: here the live store comes first. *)
Definition update (p : path) (df : diff) : M unit :=
  force ← this FORCE_TRANSACTIONS;
  if force : bool then throw UseATransaction
  else
    active ← this isTransacting;
    if active : bool then stage_update p df
    else
      _update p df ;;
      st ← this stage;
      if st is Some _ then stage_update p df else ret tt.

(** [Document.undo()]. *)
Definition undo : M unit :=
  d ← this done;
  match pop d with
  | Some (change, rest) =>
      assign (set_done rest) ;;
      let inverted := invert change in
      _apply inverted ApplyBoth ;;
      u ← this undone;
      assign (set_undone (u ++ [inverted])) ;;
      _notifyChangeListeners inverted (Given {["replay" := VBool true]})
  | None => console_error "No change can be undone."
  end.

(** [Document.redo()]. *)
Definition redo : M unit :=
  u ← this undone;
  match pop u with
  | Some (change, rest) =>
      assign (set_undone rest) ;;
      let inverted := invert change in
      _apply inverted ApplyBoth ;;
      d ← this done;
      assign (set_done (d ++ [inverted])) ;;
      _notifyChangeListeners inverted (Given {["replay" := VBool true]})
  | None => console_error "No change can be redone."
  end.

(** [Document.loadSeed(seed)]: the transformation returns nothing. *)
Definition loadSeed (seed : list node) : M unit :=
  transaction (Arguments1 (Some (stage_loadSeed seed ;; ret Undefined))).

(** [Document.documentDidLoad()]. *)
Definition documentDidLoad : M unit :=
  stage_reset ;;
  assign (set_done []).

(** [new Document(schema)]: the fields as the constructor sets them, the
    class's [initialize] running before the stage is there; the stage starts
    as a clone of the store ([new TransactionDocument(this)]). *)
Definition new_Document (initialize : M unit) : outcome unit * Document :=
  let d0 :=
    {| data := ∅; stage := None; isTransacting := false;
       done := []; undone := []; FORCE_TRANSACTIONS := false;
       emitted := []; console := [] |} in
  match initialize d0 with
  | (Ret _, d1) =>
      (Ret tt,
       set_FORCE_TRANSACTIONS false
         (set_isTransacting false
            (set_stage
               (Some {| stage_data := data d1; stage_ops := [];
                        stage_before := ∅ |})
               d1)))
  | (Throw e, d1) => (Throw e, d1)
  end.

(** [Document.newInstance()]: [new Document(this.schema)], whose [initialize]
    adds nothing. *)
Definition newInstance : outcome unit * Document := new_Document (ret tt).

(** [Document.fromSnapshot(data)]: the outcome of loading and the new
    document. *)
Definition fromSnapshot (snapshot : list node) : outcome unit * Document :=
  match newInstance with
  | (Ret _, doc) => loadSeed snapshot doc
  | (Throw e, doc) => (Throw e, doc)
  end.

(** ** [document.js]: annotation queries *)

(** The [options] object of the two queries. *)
Record options : Type := {
  options_container : option string;
  options_type : option string
}.

(** [{}]. *)
Definition no_options : options :=
  {| options_container := None; options_type := None |}.

(** [if (options.type)]: the type filter, when it is there and not empty. *)
Definition type_filter (o : options) : option string :=
  match options_type o with
  | Some t => if String.eqb t "" then None else Some t
  | None => None
  end.

(** Modelled from the spec: the accessors of a property selection. *)
Definition getPath (sel : selection) : path :=
  match sel with
  | PropertySelection p _ _ _ => p
  | ContainerSelection _ p _ _ _ _ => p
  | NullSelection => ("", "")
  end.

Definition getStartOffset (sel : selection) : nat :=
  match sel with
  | PropertySelection _ startOffset _ _ => startOffset
  | ContainerSelection _ _ startOffset _ _ _ => startOffset
  | NullSelection => 0
  end.

Definition getEndOffset (sel : selection) : nat :=
  match sel with
  | PropertySelection _ _ endOffset _ => endOffset
  | ContainerSelection _ _ _ _ endOffset _ => endOffset
  | NullSelection => 0
  end.

(** A question put to one of the document's indices. *)
Inductive lookup : Type :=
| AnnotationIndexGet (p : path) (startOffset endOffset : nat)
| TypeIndexGet (type : string)
| ContainerAnnotationsById.

Section Queries.

(** The indices and the selection algebra are other files of the repository;
    the queries are taken over any of them.  An index answers from the live
    store (invariant 4 of section 3). *)
Variable annotationIndex_get : store -> path -> nat -> nat -> list node.
Variable filterByType : string -> node -> bool.
Variable typeIndex_get : store -> string -> list node.
Variable containerAnnotations_byId : store -> list node.
Variable getSelection : store -> node -> selection.
Variable overlaps : selection -> selection -> bool.

(** [Document.getAnnotationsForSelection(sel, options)]: the annotations it
    returns and the index lookups it made. *)
Definition getAnnotationsForSelection
    (sel : selection) (opts : arg options) (d : Document)
    : list node * list lookup :=
  let opts := or_default opts no_options in
  if isPropertySelection sel then
    let p := getPath sel in
    let startOffset := getStartOffset sel in
    let endOffset := getEndOffset sel in
    let annotations := annotationIndex_get (data d) p startOffset endOffset in
    let annotations :=
      match type_filter opts with
      | Some t => List.filter (filterByType t) annotations
      | None => annotations
      end in
    (annotations, [AnnotationIndexGet p startOffset endOffset])
  else ([], []).

(** [Document.getContainerAnnotationsForSelection(sel, container, options)]:
    how the call ends and the index lookups it made.  [options.type] of an
    [options] that was not given is a [TypeError]. *)
Definition getContainerAnnotationsForSelection
    (sel : selection) (container : arg node) (opts : arg options)
    (d : Document) : outcome (list node) * list lookup :=
  match container with
  | Given _ =>
      match opts with
      | Given o =>
          let '(annotations, asked) :=
            match type_filter o with
            | Some t => (typeIndex_get (data d) t, [TypeIndexGet t])
            | None =>
                (containerAnnotations_byId (data d), [ContainerAnnotationsById])
            end in
          (Ret (List.filter
                  (fun anno => overlaps sel (getSelection (data d) anno))
                  annotations),
           asked)
      | _ => (Throw TypeError, [])
      end
  | _ => (Ret [], [])
  end.

End Queries.

(** ** Invariants of the document *)

(** The operations [ops] replayed in order with [data.apply]. *)
Fixpoint replay (ops : list op) (s : store) : option store :=
  match ops with
  | [] => Some s
  | o :: ops' => s' ← data_apply o s; replay ops' s'
  end.

(** The stage's store and the live store hold the same data (invariant 5 of
    section 3); there is nothing to compare while the constructor has not
    built the stage. *)
Definition mirrored (d : Document) : Prop :=
  forall tx, stage d = Some tx -> stage_data tx = data d.

(** Outside a transaction: the stage mirrors the live store and buffers
    nothing. *)
Definition idle (d : Document) : Prop :=
  isTransacting d = false /\
  exists tx, stage d = Some tx /\ stage_data tx = data d /\ stage_ops tx = [].

(** Inside a transaction: the buffered operations are those the store
    recorded on the way from the live store to the stage's store. *)
Definition staged (d : Document) : Prop :=
  isTransacting d = true /\
  exists tx, stage d = Some tx /\
    replay_recorded (stage_ops tx) (data d) = Some (stage_data tx).

(** The event data of a replay, [{ 'replay': true }]. *)
Definition replay_info : info := {["replay" := VBool true]}.

(** The four mutations of the public interface. *)
Inductive mutation : Type :=
| Create (nodeData : node)
| Delete (nodeId : string)
| SetValue (p : path) (v : value)
| Update (p : path) (df : diff).

(** The call of a mutation on the document. *)
Definition perform (m : mutation) : M unit :=
  match m with
  | Create nodeData => create nodeData ;; ret tt
  | Delete nodeId => delete nodeId
  | SetValue p v => set p v
  | Update p df => update p df
  end.

(** The call of a mutation on the stage, as a transformation makes it. *)
Definition stage_perform (m : mutation) : M unit :=
  match m with
  | Create nodeData => stage_create nodeData
  | Delete nodeId => stage_delete nodeId
  | SetValue p v => stage_set p v
  | Update p df => stage_update p df
  end.

(** The store's primitive behind a mutation. *)
Definition primitive (m : mutation) : store -> option (op * store) :=
  match m with
  | Create nodeData => data_create nodeData
  | Delete nodeId => data_delete nodeId
  | SetValue p v => data_set p v
  | Update p df => data_update p df
  end.

(** ** A linear-scan annotation index (modelled from the spec) *)

(** Modelled from the spec: an annotation has [path: [nodeId, property]],
    [startOffset] and [endOffset] (section 3). *)
Definition annotation_range (n : node) : option (path * nat * nat) :=
  match node_props n !! "path", node_props n !! "startOffset",
        node_props n !! "endOffset" with
  | Some (VIds [nodeId; property]), Some (VNum startOffset), Some (VNum endOffset) =>
      Some ((nodeId, property), Z.to_nat startOffset, Z.to_nat endOffset)
  | _, _, _ => None
  end.

(** Modelled from the spec: [annotationIndex.get(path, start, end)] returns
    the annotations on [path] whose closed range meets [[start, end]] (section
    4.D), here by a scan of the store. *)
Definition scan_annotations (s : store) (p : path) (startOffset endOffset : nat)
    : list node :=
  List.filter
    (fun n =>
       match annotation_range n with
       | Some (q, a, b) =>
           bool_decide (q = p) && (a <=? endOffset)%nat && (startOffset <=? b)%nat
       | None => false
       end)
    (map (fun kv => node_of kv.1 kv.2) (map_to_list s)).

(** Modelled from the spec: [AnnotationIndex.filterByType(type)]. *)
Definition has_type (type : string) (n : node) : bool :=
  String.eqb (node_type n) type.

(** ** Example documents *)

(** The paragraph and the annotation of the first scenario of section 8. *)
Definition p1 : node :=
  Node "p1" "paragraph" {["content" := VStr "Hello World"]}.

Definition s1 : node :=
  Node "s1" "strong"
    {["path" := VIds ["p1"; "content"];
      "startOffset" := VNum 6; "endOffset" := VNum 11]}.

(** A new document, and the document loaded from the snapshot of [p1] and
    [s1]. *)
Definition fresh : Document := Eval vm_compute in newInstance.2.

Definition loaded : Document := Eval vm_compute in (fromSnapshot [p1; s1]).2.

Definition cursor (offset : nat) : value :=
  VSel (PropertySelection ("p1", "content") offset offset false).

(** [loaded] in the middle of a transaction that has spliced ["brave "] into
    the paragraph (the second scenario of section 8). *)
Definition editing : Document :=
  Eval vm_compute in
  snd ((startTransaction (Given {["selection" := cursor 6]}) ;;
        stage_update ("p1", "content") (StringSplice 6 "" "brave ") ;;
        stage_set ("s1", "startOffset") (VNum 12) ;;
        stage_set ("s1", "endOffset") (VNum 17)) loaded).

(** A selection across the children of a container. *)
Definition across_body : selection :=
  ContainerSelection "body" ("p1", "content") 2 ("p2", "content") 3 false.

(** [editing] committed with the cursor behind the inserted text, and that
    commit undone. *)
Definition committed : Document :=
  Eval vm_compute in
  snd (stage_save {["selection" := cursor 12]} Undefined editing).

Definition reverted : Document := Eval vm_compute in snd (undo committed).

(** The change that [committed] has on top of [done]. *)
Definition brave_change : DocumentChange :=
  {| ops := [OpUpdate ("p1", "content") (StringSplice 6 "" "brave ");
             OpSet ("s1", "startOffset") (VNum 12) (VNum 6);
             OpSet ("s1", "endOffset") (VNum 17) (VNum 11)];
     before := {["selection" := cursor 6]};
     after := {["selection" := cursor 12]} |}.

(** A transaction opened on [reverted], whose [undone] holds the change. *)
Definition reopened : Document :=
  Eval vm_compute in snd (startTransaction Undefined reverted).

(** A transaction on a new document whose transformation does nothing. *)
Definition empty_transaction : outcome unit * Document :=
  Eval vm_compute in transaction (Arguments1 (Some (ret (Given ∅)))) fresh.

(** A transaction whose transformation returns [null] for the selection. *)
Definition clearing_selection : outcome unit * Document :=
  Eval vm_compute in
  transaction
    (Arguments2 (Given {["selection" := cursor 6]})
       (Some (ret (Given {["selection" := VNull]}))))
    loaded.

(** A transformation that splices the text and returns a new selection and
    a key the before state does not have. *)
Definition insert_brave : transformation :=
  stage_update ("p1", "content") (StringSplice 6 "" "brave ") ;;
  ret (Given {["selection" := cursor 12; "note" := VStr "typed"]}).

(** [loaded] with a transaction open on that before state, and then with
    [insert_brave] run. *)
Definition opened : Document :=
  Eval vm_compute in
  snd (startTransaction (Given {["selection" := cursor 6]}) loaded).

Definition typing : Document := Eval vm_compute in snd (insert_brave opened).

(** ** The document's meta node and id *)

(** [Document.getDocumentMeta()]: [this.get('document')], the node of the live
    store with the id ['document']. *)
Definition getDocumentMeta : M (option node) :=
  s ← this data;
  ret (data_get s "document").

(** The getter of the property [id]: [this.getDocumentMeta().guid].  Without a
    meta node the read of [.guid] is a [TypeError]; a meta node without a
    [guid] gives [undefined], here [None]. *)
Definition get_id : M (option value) :=
  meta ← getDocumentMeta;
  match meta with
  | Some n => ret (node_props n !! "guid")
  | None => throw TypeError
  end.

(** ** More invariants and examples *)

(** Everything of the document but its two stores is the same in [d] and
    [d']. *)
Definition same_bookkeeping (d d' : Document) : Prop :=
  isTransacting d' = isTransacting d /\
  done d' = done d /\
  undone d' = undone d /\
  FORCE_TRANSACTIONS d' = FORCE_TRANSACTIONS d /\
  emitted d' = emitted d /\
  console d' = console d.

(** The store's primitives behind a list of mutations, one after the other. *)
Fixpoint primitives (ms : list mutation) (s : store) : option store :=
  match ms with
  | [] => Some s
  | m :: ms' => '(_, s') ← primitive m s; primitives ms' s'
  end.

(** The change that loading [p1] and [s1] left on [done] of [loaded]. *)
Definition seed_change : DocumentChange :=
  {| ops := [OpCreate p1; OpCreate s1]; before := ∅; after := ∅ |}.

(** [editing] with transactions forced. *)
Definition forced : Document :=
  Eval vm_compute in set_FORCE_TRANSACTIONS true editing.

(** The meta node of a document, and [loaded] with it. *)
Definition meta : node :=
  Node "document" "document" {["guid" := VStr "doc-1"; "title" := VStr "Notes"]}.

Definition titled : Document :=
  Eval vm_compute in snd (create meta loaded).

(** The container of the README's [initialize]. *)
Definition body : node := Node "body" "container" {["nodes" := VIds []]}.

(** A transformation that edits and then cancels its transaction itself. *)
Definition edit_and_cancel : transformation :=
  stage_update ("p1", "content") (StringSplice 6 "" "brave ") ;;
  stage_cancel ;;
  ret (Given ∅).

(** A transformation that edits and returns nothing. *)
Definition edit_only : transformation :=
  stage_update ("p1", "content") (StringSplice 6 "" "brave ") ;;
  ret Undefined.

(** A transformation that fails on its second mutation. *)
Definition edit_and_fail : transformation :=
  stage_update ("p1", "content") (StringSplice 6 "" "brave ") ;;
  stage_delete "p9" ;;
  ret (Given ∅).



(** * Properties *)

(** ** The operations are invertible *)

Lemma splice_inverse {A} `{EqDecision A} pos (removed inserted l l' : list A) :
  splice pos removed inserted l = Some l' ->
  splice pos inserted removed l' = Some l.
Proof.
  unfold splice. case_bool_decide as Hok; [|discriminate].
  destruct Hok as [Hpos Hrem]. intros [= <-].
  set (rest := drop (pos + length removed) l).
  assert (Hlen : pos = length (take pos l)) by (rewrite length_take; lia).
  assert (Hdrop : drop pos (take pos l ++ inserted ++ rest) = inserted ++ rest)
    by (by apply drop_app_length').
  assert (Hrest : drop (pos + length inserted) (take pos l ++ inserted ++ rest)
                  = rest)
    by (by rewrite <- drop_drop, Hdrop, drop_app_length).
  assert (Hl : take pos l ++ removed ++ rest = l).
  { subst rest. rewrite <- Hrem at 1. rewrite <- drop_drop.
    by rewrite take_drop, take_drop. }
  rewrite bool_decide_eq_true_2.
  - rewrite Hrest, (take_app_length' _ _ pos Hlen). by rewrite Hl.
  - split.
    + rewrite length_app. lia.
    + by rewrite Hdrop, take_app_length.
Qed.

Lemma invert_diff_involutive d : invert_diff (invert_diff d) = d.
Proof. destruct d; simpl; f_equal; lia. Qed.

Lemma apply_diff_inverse d v v' :
  apply_diff d v = Some v' -> apply_diff (invert_diff d) v' = Some v.
Proof.
  destruct d as [pos removed inserted|pos removed inserted|delta], v;
    simpl; try discriminate.
  - destruct (splice _ _ _ _) as [l|] eqn:Hs; simpl; [|discriminate].
    intros [= <-]. simpl.
    rewrite list_ascii_of_string_of_list_ascii.
    rewrite (splice_inverse _ _ _ _ _ Hs). simpl.
    by rewrite string_of_list_ascii_of_string.
  - destruct (splice _ _ _ _) as [l|] eqn:Hs; simpl; [|discriminate].
    intros [= <-]. simpl.
    by rewrite (splice_inverse _ _ _ _ _ Hs).
  - intros [= <-]. simpl. do 2 f_equal. lia.
Qed.

Lemma invert_op_involutive o : invert_op (invert_op o) = o.
Proof. destruct o; simpl; try done. by rewrite invert_diff_involutive. Qed.

Lemma set_prop_set_prop e prop v w :
  set_prop (set_prop e prop v) prop w = set_prop e prop w.
Proof. unfold set_prop. simpl. by rewrite insert_insert_eq. Qed.

Lemma set_prop_id e prop v :
  entry_props e !! prop = Some v -> set_prop e prop v = e.
Proof. destruct e as [t ps]. unfold set_prop. simpl. intros H. by rewrite insert_id. Qed.

Lemma node_of_entry_of n : node_of (node_id n) (entry_of n) = n.
Proof. by destruct n. Qed.

Lemma entry_of_node_of id e : entry_of (node_of id e) = e.
Proof. by destruct e. Qed.

Lemma records_apply o s s' : records o s s' -> data_apply o s = Some s'.
Proof. unfold records, data_apply. by intros ->. Qed.

(** An operation recorded from [s] to [s'] has its inverse recorded from [s']
    back to [s]. *)
Lemma records_invert o s s' : records o s s' -> records (invert_op o) s' s.
Proof.
  unfold records.
  destruct o as [n|n|[id prop] v original|[id prop] df]; simpl.
  - unfold data_create, data_delete.
    destruct (s !! node_id n) eqn:Hid; [discriminate|]. intros [= <-].
    rewrite lookup_insert_eq. simpl.
    by rewrite node_of_entry_of, delete_insert_id.
  - unfold data_create, data_delete.
    destruct (s !! node_id n) as [e|] eqn:Hid; simpl; [|discriminate].
    intros [= Hn <-]. rewrite lookup_delete_eq.
    assert (He : entry_of n = e) by (rewrite <- Hn; apply entry_of_node_of).
    by rewrite He, insert_delete_id.
  - unfold data_set. simpl.
    destruct (s !! id) as [e|] eqn:Hid; simpl; [|discriminate].
    destruct (entry_props e !! prop) as [w|] eqn:Hprop; simpl; [|discriminate].
    intros [= <- <-]. rewrite lookup_insert_eq. simpl.
    rewrite lookup_insert_eq. simpl.
    rewrite insert_insert_eq, set_prop_set_prop, (set_prop_id _ _ _ Hprop).
    by rewrite insert_id.
  - unfold data_update. simpl.
    destruct (s !! id) as [e|] eqn:Hid; simpl; [|discriminate].
    destruct (entry_props e !! prop) as [w|] eqn:Hprop; simpl; [|discriminate].
    destruct (apply_diff df w) as [w'|] eqn:Hdiff; simpl; [|discriminate].
    intros [= <-]. rewrite lookup_insert_eq. simpl.
    rewrite lookup_insert_eq. simpl.
    rewrite (apply_diff_inverse _ _ _ Hdiff). simpl.
    rewrite insert_insert_eq, set_prop_set_prop, (set_prop_id _ _ _ Hprop).
    by rewrite insert_id.
Qed.

Lemma replay_recorded_replay ops s s' :
  replay_recorded ops s = Some s' -> replay ops s = Some s'.
Proof.
  revert s. induction ops as [|o ops IH]; intros s; simpl; [done|].
  destruct (data_apply o s) as [s1|]; simpl; [|done].
  case_bool_decide; [apply IH|done].
Qed.

Lemma replay_recorded_app ops1 ops2 s :
  replay_recorded (ops1 ++ ops2) s =
  replay_recorded ops1 s ≫= replay_recorded ops2.
Proof.
  revert s. induction ops1 as [|o ops1 IH]; intros s; simpl; [done|].
  destruct (data_apply o s) as [s1|]; simpl; [|done].
  case_bool_decide; [apply IH|done].
Qed.

(** Undoing a recorded sequence: the inverses, in reverse order, are recorded
    on the way back (the first property of section 8). *)
Lemma replay_recorded_invert ops s s' :
  replay_recorded ops s = Some s' ->
  replay_recorded (invert_op <$> reverse ops) s' = Some s.
Proof.
  revert s. induction ops as [|o ops IH]; intros s; simpl.
  - by intros [= <-].
  - destruct (data_apply o s) as [s1|] eqn:Happly; simpl; [|done].
    case_bool_decide as Hrec; [|done]. intros Hrest.
    rewrite reverse_cons, fmap_app, replay_recorded_app.
    rewrite (IH _ Hrest). simpl.
    apply records_invert in Hrec.
    rewrite (records_apply _ _ _ Hrec). simpl.
    by rewrite bool_decide_eq_true_2.
Qed.

Lemma invert_ops_involutive (os : list op) :
  invert_op <$> reverse (invert_op <$> reverse os) = os.
Proof.
  rewrite <- fmap_reverse, reverse_involutive, <- list_fmap_compose.
  rewrite <- (list_fmap_id os) at 2.
  apply list_fmap_ext. intros _ o _. apply invert_op_involutive.
Qed.

Lemma invert_involutive c : invert (invert c) = c.
Proof.
  destruct c as [os b a]. unfold invert. simpl.
  by rewrite invert_ops_involutive.
Qed.

(** ** Running the methods *)

Ltac run :=
  unfold mbind, mret, M_bind, M_ret, bind, ret, throw, this, assign, emit,
    console_error, the_stage, put_stage in *; simpl in *.

(** A closed equation, by evaluation. *)
Ltac evaluate := vm_compute; reflexivity.

(** [staged d] for a closed [d], by evaluation. *)
Ltac evaluate_staged :=
  split; [evaluate|]; eexists; split; [reflexivity|]; evaluate.

Ltac setters :=
  unfold set_data, set_stage, set_isTransacting, set_done, set_undone,
    set_FORCE_TRANSACTIONS, set_emitted, set_console in *; simpl in *.

Lemma set_data_id d : set_data (data d) d = d.
Proof. by destruct d. Qed.

Lemma pop_snoc {A} (l : list A) x : pop (l ++ [x]) = Some (x, l).
Proof. unfold pop. by rewrite reverse_snoc, reverse_involutive. Qed.

Lemma pop_nil {A} : pop (@nil A) = None.
Proof. done. Qed.

Lemma pop_Some {A} (l : list A) x r : pop l = Some (x, r) -> l = r ++ [x].
Proof.
  unfold pop. destruct (reverse l) as [|y r'] eqn:Hrev; [done|].
  intros [= <- <-]. rewrite <- (reverse_involutive l), Hrev.
  apply reverse_cons.
Qed.

Lemma pop_None {A} (l : list A) : pop l = None -> l = [].
Proof.
  unfold pop. destruct (reverse l) as [|y r'] eqn:Hrev; [|done].
  intros _. by rewrite <- (reverse_involutive l), Hrev.
Qed.

Lemma each_cons {A} (f : A -> M unit) x l d :
  each f (x :: l) d =
  match f x d with
  | (Ret _, d') => each f l d'
  | (Throw e, d') => (Throw e, d')
  end.
Proof. done. Qed.

Lemma apply_live_ok o d s' :
  data_apply o (data d) = Some s' ->
  apply_live o d = (Ret tt, set_data s' d).
Proof.
  intros H. unfold apply_live, live_apply_op, _updateContainers. run.
  by rewrite H.
Qed.

Lemma stage_apply_op_ok o d tx s' :
  stage d = Some tx ->
  data_apply o (stage_data tx) = Some s' ->
  stage_apply_op o d
  = (Ret tt,
     set_stage (Some {| stage_data := s'; stage_ops := stage_ops tx;
                        stage_before := stage_before tx |}) d).
Proof. intros Hst H. unfold stage_apply_op. run. by rewrite Hst, H. Qed.

(** Replaying on the live store a list of operations that applies. *)
Lemma each_live_apply ops d s' :
  replay ops (data d) = Some s' ->
  each apply_live ops d = (Ret tt, set_data s' d).
Proof.
  revert d. induction ops as [|o ops IH]; intros d Hreplay; simpl in Hreplay.
  - injection Hreplay as <-. by rewrite set_data_id.
  - destruct (data_apply o (data d)) as [s1|] eqn:Happly; simpl in Hreplay; [|done].
    rewrite each_cons, (apply_live_ok _ _ _ Happly).
    by rewrite (IH (set_data s1 d) Hreplay).
Qed.

(** Replaying on the stage a list of operations that applies. *)
Lemma each_stage_apply ops d tx s' :
  stage d = Some tx ->
  replay ops (stage_data tx) = Some s' ->
  each stage_apply_op ops d
  = (Ret tt,
     set_stage (Some {| stage_data := s'; stage_ops := stage_ops tx;
                        stage_before := stage_before tx |}) d).
Proof.
  revert d tx. induction ops as [|o ops IH]; intros d tx Hst Hreplay;
    simpl in Hreplay.
  - injection Hreplay as <-. destruct d, tx; simpl in *. by subst.
  - destruct (data_apply o (stage_data tx)) as [s1|] eqn:Happly;
      simpl in Hreplay; [|done].
    rewrite each_cons, (stage_apply_op_ok _ _ _ _ Hst Happly).
    set (tx1 := {| stage_data := s1; stage_ops := stage_ops tx;
                   stage_before := stage_before tx |}).
    by rewrite (IH (set_stage (Some tx1) d) tx1 eq_refl Hreplay).
Qed.

Lemma _apply_both c d tx s1 s2 :
  isTransacting d = false ->
  stage d = Some tx ->
  replay (ops c) (stage_data tx) = Some s1 ->
  replay (ops c) (data d) = Some s2 ->
  _apply c ApplyBoth d
  = (Ret tt,
     set_data s2
       (set_stage (Some {| stage_data := s1; stage_ops := stage_ops tx;
                           stage_before := stage_before tx |}) d)).
Proof.
  intros Hidle Hst H1 H2. unfold _apply, stage_apply. run.
  rewrite Hidle. simpl. rewrite Hst.
  rewrite (each_stage_apply _ _ _ _ Hst H1).
  by rewrite each_live_apply with (s' := s2).
Qed.

Lemma _apply_skip c d s2 :
  isTransacting d = false ->
  replay (ops c) (data d) = Some s2 ->
  _apply c SkipStage d = (Ret tt, set_data s2 d).
Proof.
  intros Hidle H2. unfold _apply. run.
  rewrite Hidle. simpl.
  by rewrite each_live_apply with (s' := s2).
Qed.

(** A commit whose buffered operations apply to the live store. *)
Lemma _saveTransaction_ok b a i d tx s' :
  isTransacting d = true ->
  stage d = Some tx ->
  replay (stage_ops tx) (data d) = Some s' ->
  _saveTransaction b a i d
  = (Ret tt,
     let c := {| ops := stage_ops tx; before := b; after := a |} in
     {| data := s'; stage := Some tx; isTransacting := false;
        done := done d ++ [c]; undone := [];
        FORCE_TRANSACTIONS := FORCE_TRANSACTIONS d;
        emitted := emitted d ++ [ProxyDocumentChanged "path" c (or_default i ∅);
                                 DocumentChanged c (or_default i ∅)];
        console := console d |}).
Proof.
  intros Hactive Hst Hreplay.
  unfold _saveTransaction, stage_getOperations, _notifyChangeListeners. run.
  rewrite Hactive. simpl. rewrite Hst. simpl.
  erewrite _apply_skip; [|done|simpl; exact Hreplay].
  setters. by rewrite Hst, <- app_assoc.
Qed.

Lemma stage_save_ok a i d tx s' :
  isTransacting d = true ->
  stage d = Some tx ->
  replay (stage_ops tx) (data d) = Some s' ->
  stage_save a i d
  = (Ret tt,
     let c := {| ops := stage_ops tx; before := stage_before tx; after := a |} in
     {| data := s';
        stage := Some {| stage_data := stage_data tx; stage_ops := [];
                         stage_before := ∅ |};
        isTransacting := false;
        done := done d ++ [c]; undone := [];
        FORCE_TRANSACTIONS := FORCE_TRANSACTIONS d;
        emitted := emitted d ++ [ProxyDocumentChanged "path" c (or_default i ∅);
                                 DocumentChanged c (or_default i ∅)];
        console := console d |}).
Proof.
  intros Hactive Hst Hreplay. unfold stage_save, stage_reset. run.
  rewrite Hst.
  by rewrite (_saveTransaction_ok _ _ _ _ _ _ Hactive Hst Hreplay).
Qed.

(** An undo whose inverted change applies to both stores. *)
Lemma undo_ok d c rest tx s1 s2 :
  isTransacting d = false ->
  stage d = Some tx ->
  done d = rest ++ [c] ->
  replay (ops (invert c)) (stage_data tx) = Some s1 ->
  replay (ops (invert c)) (data d) = Some s2 ->
  undo d
  = (Ret tt,
     {| data := s2;
        stage := Some {| stage_data := s1; stage_ops := stage_ops tx;
                         stage_before := stage_before tx |};
        isTransacting := false;
        done := rest; undone := undone d ++ [invert c];
        FORCE_TRANSACTIONS := FORCE_TRANSACTIONS d;
        emitted := emitted d ++ [ProxyDocumentChanged "path" (invert c) replay_info;
                                 DocumentChanged (invert c) replay_info];
        console := console d |}).
Proof.
  intros Hidle Hst Hdone H1 H2. unfold undo, _notifyChangeListeners. run.
  rewrite Hdone, pop_snoc.
  erewrite _apply_both; [|done|exact Hst|exact H1|exact H2].
  setters. by rewrite Hidle, <- app_assoc.
Qed.

(** A redo whose inverted change applies to both stores. *)
Lemma redo_ok d c rest tx s1 s2 :
  isTransacting d = false ->
  stage d = Some tx ->
  undone d = rest ++ [c] ->
  replay (ops (invert c)) (stage_data tx) = Some s1 ->
  replay (ops (invert c)) (data d) = Some s2 ->
  redo d
  = (Ret tt,
     {| data := s2;
        stage := Some {| stage_data := s1; stage_ops := stage_ops tx;
                         stage_before := stage_before tx |};
        isTransacting := false;
        done := done d ++ [invert c]; undone := rest;
        FORCE_TRANSACTIONS := FORCE_TRANSACTIONS d;
        emitted := emitted d ++ [ProxyDocumentChanged "path" (invert c) replay_info;
                                 DocumentChanged (invert c) replay_info];
        console := console d |}).
Proof.
  intros Hidle Hst Hundone H1 H2. unfold redo, _notifyChangeListeners. run.
  rewrite Hundone, pop_snoc.
  erewrite _apply_both; [|done|exact Hst|exact H1|exact H2].
  setters. by rewrite Hidle, <- app_assoc.
Qed.

(** ** Undo and redo *)

(** C2. From a transaction whose buffered operations were recorded on the
    stage, the commit succeeds, and so do an [undo] and a [redo] after it:
    the [undo] brings the live store back to what it was before the commit,
    and the [redo] restores the state right after the commit, that is the
    live store, the stage, and both stacks, with the committed change and its
    before and after state on top of [done]. *)
Theorem undo_redo_restores_commit d a i :
  staged d ->
  exists d1 d2 d3,
    stage_save a i d = (Ret tt, d1) /\
    undo d1 = (Ret tt, d2) /\
    redo d2 = (Ret tt, d3) /\
    data d2 = data d /\
    data d3 = data d1 /\
    stage d3 = stage d1 /\
    done d3 = done d1 /\
    undone d3 = undone d1 /\
    isTransacting d3 = isTransacting d1.
Proof.
  intros (Hactive & tx & Hst & Hrec).
  pose proof (replay_recorded_replay _ _ _ Hrec) as Hreplay.
  pose proof (replay_recorded_replay _ _ _ (replay_recorded_invert _ _ _ Hrec))
    as Hback.
  set (c := {| ops := stage_ops tx; before := stage_before tx; after := a |}).
  eexists _, _, _. split; [|split; [|split]].
  - exact (stage_save_ok a i d tx _ Hactive Hst Hreplay).
  - by eapply (undo_ok _ c (done d)).
  - eapply (redo_ok _ (invert c) []); simpl; try done;
      by rewrite invert_ops_involutive.
  - simpl. rewrite invert_involutive. by repeat split.
Qed.

(** ** The stage mirrors the live store *)

Lemma stage_mutate_run f d tx :
  stage d = Some tx ->
  stage_mutate f d =
  match f (stage_data tx) with
  | None => (Throw InvalidOperation, d)
  | Some (o, s') =>
      (Ret tt,
       set_stage
         (Some {| stage_data := s';
                  stage_ops := if isTransacting d then stage_ops tx ++ [o]
                               else stage_ops tx;
                  stage_before := stage_before tx |}) d)
  end.
Proof.
  intros Hst. unfold stage_mutate. run. rewrite Hst.
  by destruct (f (stage_data tx)) as [[o s']|].
Qed.

Lemma live_mutate_run f d :
  live_mutate f d =
  match f (data d) with
  | None => (Throw InvalidOperation, d)
  | Some (o, s') => (Ret tt, set_data s' d)
  end.
Proof.
  unfold live_mutate, _updateContainers. run.
  by destruct (f (data d)) as [[o s']|].
Qed.

(** What a mutation does outside a transaction when the stage mirrors the
    live store: both stores take the store's primitive, or neither does. *)
Lemma perform_outside d m :
  isTransacting d = false ->
  mirrored d ->
  perform m d =
  if FORCE_TRANSACTIONS d then (Throw UseATransaction, d)
  else
    match primitive m (data d) with
    | None => (Throw InvalidOperation, d)
    | Some (o, s') =>
        (Ret tt,
         set_data s'
           match stage d with
           | Some tx =>
               set_stage (Some {| stage_data := s'; stage_ops := stage_ops tx;
                                  stage_before := stage_before tx |}) d
           | None => d
           end)
    end.
Proof.
  intros Hidle Hmirror.
  assert (Hstage : forall f : store -> option (op * store),
    match stage d with
    | Some _ => stage_mutate f d
    | None => (Ret tt, d)
    end =
    match stage d with
    | Some tx =>
        match f (data d) with
        | None => (Throw InvalidOperation, d)
        | Some (o, s') =>
            (Ret tt,
             set_stage (Some {| stage_data := s'; stage_ops := stage_ops tx;
                                stage_before := stage_before tx |}) d)
        end
    | None => (Ret tt, d)
    end).
  { intros f. destruct (stage d) as [tx|] eqn:Hst; [|done].
    by rewrite (stage_mutate_run _ _ _ Hst), (Hmirror _ Hst), Hidle. }
  destruct m as [nodeData|nodeId|p v|p df];
    unfold perform, create, delete, set, update,
      stage_create, stage_delete, stage_set, stage_update,
      _create, _delete, _set, _update;
    unfold mbind, M_bind, bind, this, ret; simpl;
    (destruct (FORCE_TRANSACTIONS d); [done|]);
    rewrite Hidle.
  - specialize (Hstage (data_create nodeData)).
    destruct (stage d) as [tx|]; simpl in *.
    + rewrite Hstage.
      destruct (data_create nodeData (data d)) as [[o s']|] eqn:Hprim; [|done].
      rewrite live_mutate_run. simpl. by rewrite Hprim.
    + rewrite live_mutate_run.
      by destruct (data_create nodeData (data d)) as [[o s']|].
  - specialize (Hstage (data_delete nodeId)).
    destruct (stage d) as [tx|]; simpl in *.
    + rewrite Hstage.
      destruct (data_delete nodeId (data d)) as [[o s']|] eqn:Hprim; [|done].
      rewrite live_mutate_run. simpl. by rewrite Hprim.
    + rewrite live_mutate_run.
      by destruct (data_delete nodeId (data d)) as [[o s']|].
  - specialize (Hstage (data_set p v)).
    destruct (stage d) as [tx|]; simpl in *.
    + rewrite Hstage.
      destruct (data_set p v (data d)) as [[o s']|] eqn:Hprim; [|done].
      rewrite live_mutate_run. simpl. by rewrite Hprim.
    + rewrite live_mutate_run.
      by destruct (data_set p v (data d)) as [[o s']|].
  - rewrite live_mutate_run.
    destruct (data_update p df (data d)) as [[o s']|] eqn:Hprim; [|done].
    destruct (stage d) as [tx|] eqn:Hst; simpl; rewrite Hst; [|done].
    rewrite (stage_mutate_run _ _ {| stage_data := stage_data tx;
                                     stage_ops := stage_ops tx;
                                     stage_before := stage_before tx |});
      [|by destruct tx].
    simpl. rewrite (Hmirror _ Hst), Hprim, Hidle. done.
Qed.

Lemma stage_apply_op_run o d tx :
  stage d = Some tx ->
  stage_apply_op o d =
  match data_apply o (stage_data tx) with
  | None => (Throw InvalidOperation, d)
  | Some s' =>
      (Ret tt,
       set_stage (Some {| stage_data := s'; stage_ops := stage_ops tx;
                          stage_before := stage_before tx |}) d)
  end.
Proof.
  intros Hst. unfold stage_apply_op. run. rewrite Hst.
  by destruct (data_apply o (stage_data tx)).
Qed.

Lemma apply_live_run o d :
  apply_live o d =
  match data_apply o (data d) with
  | None => (Throw InvalidOperation, d)
  | Some s' => (Ret tt, set_data s' d)
  end.
Proof.
  unfold apply_live, live_apply_op, _updateContainers. run.
  by destruct (data_apply o (data d)).
Qed.

(** A replay on the stage that returns went through every operation. *)
Lemma each_stage_apply_inv ops d d1 tx :
  stage d = Some tx ->
  each stage_apply_op ops d = (Ret tt, d1) ->
  exists s1,
    replay ops (stage_data tx) = Some s1 /\
    d1 = set_stage (Some {| stage_data := s1; stage_ops := stage_ops tx;
                            stage_before := stage_before tx |}) d.
Proof.
  revert d tx. induction ops as [|o ops IH]; intros d tx Hst Hrun.
  - injection Hrun as <-. exists (stage_data tx). split; [done|].
    destruct d, tx; simpl in *. by subst.
  - rewrite each_cons, (stage_apply_op_run _ _ _ Hst) in Hrun. simpl.
    destruct (data_apply o (stage_data tx)) as [s'|]; [|done]. simpl.
    set (tx1 := {| stage_data := s'; stage_ops := stage_ops tx;
                   stage_before := stage_before tx |}) in Hrun.
    destruct (IH (set_stage (Some tx1) d) tx1 eq_refl Hrun) as (s1 & Hs1 & ->).
    by exists s1.
Qed.

(** A replay on the live store that returns went through every operation. *)
Lemma each_live_apply_inv ops d d1 :
  each apply_live ops d = (Ret tt, d1) ->
  exists s2, replay ops (data d) = Some s2 /\ d1 = set_data s2 d.
Proof.
  revert d. induction ops as [|o ops IH]; intros d Hrun.
  - injection Hrun as <-. exists (data d). by rewrite set_data_id.
  - rewrite each_cons, apply_live_run in Hrun. simpl.
    destruct (data_apply o (data d)) as [s'|]; [|done]. simpl.
    destruct (IH (set_data s' d) Hrun) as (s2 & Hs2 & ->).
    by exists s2.
Qed.



(** ** Commits and the history *)

(** What [_apply] leaves alone when it returns: everything but the two
    stores. *)
Lemma _apply_returns c mode d d' :
  _apply c mode d = (Ret tt, d') ->
  exists s st, d' = set_data s (set_stage st d) /\ isTransacting d = false.
Proof.
  unfold _apply, stage_apply. run.
  destruct (isTransacting d) eqn:Hidle; [done|].
  destruct mode.
  - destruct (stage d) as [tx|] eqn:Hst; [|done].
    destruct (each stage_apply_op (ops c) d) as [[[]|e] d1] eqn:Hstage; [|done].
    destruct (each_stage_apply_inv _ _ _ _ Hst Hstage) as (s1 & _ & ->).
    intros Hlive.
    destruct (each_live_apply_inv _ _ _ Hlive) as (s2 & _ & ->).
    by eexists _, _.
  - intros Hlive.
    destruct (each_live_apply_inv _ _ _ Hlive) as (s2 & _ & ->).
    exists s2, (stage d). split; [|done]. by destruct d.
Qed.

(** C1, as the code has it.  A commit of a transaction whose buffered list is
    empty succeeds; its change has no operation, leaves the live store as it
    is, and is pushed onto [done] like any other ([undone] is emptied too). *)
Theorem empty_commit_is_pushed d tx b a i :
  isTransacting d = true ->
  stage d = Some tx ->
  stage_ops tx = [] ->
  exists d',
    _saveTransaction b a i d = (Ret tt, d') /\
    done d' = done d ++ [{| ops := []; before := b; after := a |}] /\
    undone d' = [] /\
    data d' = data d /\
    isTransacting d' = false.
Proof.
  intros Hactive Hst Hops.
  assert (Hreplay : replay (stage_ops tx) (data d) = Some (data d))
    by (by rewrite Hops).
  eexists. split.
  - exact (_saveTransaction_ok b a i d tx _ Hactive Hst Hreplay).
  - simpl. by rewrite Hops.
Qed.

(** C6. While a transaction is active, [startTransaction] throws the nested
    transaction error before it touches anything: the document, with its
    [isTransacting], its stage and the stage's buffered operations, is as
    before.  [transaction] starts its transaction outside the [try], so it
    throws the same way and does not cancel the outer transaction. *)
Theorem nested_transaction_is_refused d b :
  isTransacting d = true ->
  startTransaction b d = (Throw NestedTransaction, d) /\
  forall e t,
    transaction (Arguments3 b e (Some t)) d = (Throw NestedTransaction, d).
Proof.
  intros Hactive.
  assert (Hstart : startTransaction b d = (Throw NestedTransaction, d)).
  { unfold startTransaction. run. by rewrite Hactive. }
  split; [done|].
  intros e t. unfold transaction, clone.
  unfold mbind, M_bind, bind. by rewrite Hstart.
Qed.

(** C7. A commit that returns leaves [undone] empty.  An [undo] that returns
    pushes the inverted change onto [undone], and a [redo] that returns takes
    only the change it replays off [undone], leaving those below; both tell
    the listeners that the change is a replay. *)
Theorem commit_empties_undone_replay_does_not :
  (forall d b a i d',
     _saveTransaction b a i d = (Ret tt, d') -> undone d' = []) /\
  (forall d rest c d',
     done d = rest ++ [c] ->
     undo d = (Ret tt, d') ->
     undone d' = undone d ++ [invert c] /\
     done d' = rest /\
     last (emitted d') = Some (DocumentChanged (invert c) replay_info)) /\
  (forall d rest c d',
     undone d = rest ++ [c] ->
     redo d = (Ret tt, d') ->
     undone d' = rest /\
     done d' = done d ++ [invert c] /\
     last (emitted d') = Some (DocumentChanged (invert c) replay_info)).
Proof.
  split; [|split].
  - intros d b a i d'.
    unfold _saveTransaction, stage_getOperations, _notifyChangeListeners. run.
    destruct (isTransacting d); [|done]. simpl.
    destruct (stage d) as [tx|]; [|done]. simpl.
    destruct (_apply _ SkipStage _) as [[[]|e] d1]; [|done].
    by intros [= <-].
  - intros d rest c d' Hdone.
    unfold undo, _notifyChangeListeners. run.
    rewrite Hdone, pop_snoc.
    destruct (_apply (invert c) ApplyBoth _) as [[[]|e] d1] eqn:Happly; [|done].
    destruct (_apply_returns _ _ _ _ Happly) as (s & st & -> & _).
    intros [= <-]. simpl. by rewrite last_snoc.
  - intros d rest c d' Hundone.
    unfold redo, _notifyChangeListeners. run.
    rewrite Hundone, pop_snoc.
    destruct (_apply (invert c) ApplyBoth _) as [[[]|e] d1] eqn:Happly; [|done].
    destruct (_apply_returns _ _ _ _ Happly) as (s & st & -> & _).
    intros [= <-]. simpl. by rewrite last_snoc.
Qed.

(** C8. With nothing on [done], [undo] returns without throwing and writes
    its message to the console; nothing else of the document changes, so the
    store, [done] and [undone] are as before.  Likewise [redo] with nothing on
    [undone]. *)
Theorem exhausted_history_is_logged d :
  (done d = [] ->
   undo d = (Ret tt, set_console (console d ++ ["No change can be undone."]) d)) /\
  (undone d = [] ->
   redo d = (Ret tt, set_console (console d ++ ["No change can be redone."]) d)).
Proof.
  split; intros Hempty.
  - unfold undo. run. by rewrite Hempty.
  - unfold redo. run. by rewrite Hempty.
Qed.

(** ** Transactions *)

Lemma primitive_records m s o s' :
  primitive m s = Some (o, s') -> records o s s'.
Proof.
  unfold records.
  destruct m as [nodeData|nodeId|p v|p df]; simpl.
  - unfold data_create. destruct (s !! node_id nodeData) eqn:He; [done|].
    intros [= <- <-]. unfold data_create. by rewrite He.
  - unfold data_delete. destruct (s !! nodeId) as [e|] eqn:He; [|done].
    simpl. intros [= <- <-]. simpl. by rewrite He.
  - unfold data_set.
    destruct (s !! p.1) as [e|] eqn:He; [|done]. simpl.
    destruct (entry_props e !! p.2) as [w|] eqn:Hw; [|done]. simpl.
    intros [= <- <-]. by rewrite He; simpl; rewrite Hw.
  - unfold data_update.
    destruct (s !! p.1) as [e|] eqn:He; [|done]. simpl.
    destruct (entry_props e !! p.2) as [w|] eqn:Hw; [|done]. simpl.
    destruct (apply_diff df w) as [w'|] eqn:Hdf; [|done]. simpl.
    intros [= <- <-]. by rewrite He; simpl; rewrite Hw; simpl; rewrite Hdf.
Qed.

(** Starting a transaction on an idle document gives a staged one. *)
Lemma startTransaction_staged d b :
  idle d ->
  exists d',
    startTransaction b d = (Ret tt, d') /\ staged d' /\
    data d' = data d /\ done d' = done d /\ undone d' = undone d.
Proof.
  intros (Hidle & tx & Hst & Hdata & Hops).
  unfold startTransaction. run. rewrite Hidle. simpl. rewrite Hst. simpl.
  eexists. split; [done|]. repeat split; try done.
  eexists. split; [done|]. simpl. by rewrite Hops, Hdata.
Qed.

(** A mutation a transformation makes on the stage keeps the document staged:
    it is buffered as recorded, or it throws and changes nothing. *)
Lemma stage_perform_staged m d :
  staged d ->
  exists r d',
    stage_perform m d = (r, d') /\ staged d' /\
    data d' = data d /\ done d' = done d /\ undone d' = undone d.
Proof.
  intros (Hactive & tx & Hst & Hrec).
  assert (Hrun : stage_perform m d = stage_mutate (primitive m) d)
    by (by destruct m).
  rewrite Hrun, (stage_mutate_run _ _ _ Hst), Hactive.
  destruct (primitive m (stage_data tx)) as [[o s']|] eqn:Hprim.
  - eexists _, _. split; [done|]. repeat split; try done.
    eexists. split; [done|]. simpl.
    rewrite replay_recorded_app, Hrec. simpl.
    apply primitive_records in Hprim.
    rewrite (records_apply _ _ _ Hprim). simpl.
    by rewrite bool_decide_eq_true_2.
  - eexists _, _. split; [done|]. repeat split; try done.
    by exists tx.
Qed.

(** A commit brings a staged document back to idle. *)
Lemma stage_save_idle d a i :
  staged d -> exists d', stage_save a i d = (Ret tt, d') /\ idle d'.
Proof.
  intros (Hactive & tx & Hst & Hrec).
  pose proof (replay_recorded_replay _ _ _ Hrec) as Hreplay.
  eexists. split.
  - exact (stage_save_ok a i d tx _ Hactive Hst Hreplay).
  - split; [done|]. by eexists.
Qed.

(** A cancel reverts the stage to the live store and brings a staged document
    back to idle, with nothing added to the history. *)
Lemma stage_cancel_idle d :
  staged d ->
  exists d',
    stage_cancel d = (Ret tt, d') /\ idle d' /\
    data d' = data d /\ done d' = done d /\ undone d' = undone d.
Proof.
  intros (Hactive & tx & Hst & Hrec).
  pose proof (replay_recorded_replay _ _ _ (replay_recorded_invert _ _ _ Hrec))
    as Hback.
  unfold stage_cancel, _cancelTransaction, stage_reset. run. rewrite Hst.
  rewrite (each_stage_apply _ _ _ _ Hst Hback). simpl. rewrite Hactive. simpl.
  eexists. split; [done|]. repeat split; try done.
  by eexists.
Qed.

(** A transformation that throws on a staged document has its transaction
    cancelled by [transaction], which throws the same error. *)
Lemma transaction_throws d b e t d1 err d2 :
  startTransaction b d = (Ret tt, d1) ->
  t d1 = (Throw err, d2) ->
  staged d2 ->
  exists d',
    transaction (Arguments3 b e (Some t)) d = (Throw err, d') /\ idle d' /\
    data d' = data d2 /\ done d' = done d2 /\ undone d' = undone d2.
Proof.
  intros Hstart Hrun Hstaged.
  destruct (stage_cancel_idle _ Hstaged) as (d' & Hcancel & Hidle & Hrest).
  exists d'. split; [|done].
  unfold transaction, clone, try_finally, stage_finish.
  unfold mbind, M_bind, bind, this. rewrite Hstart, Hrun. simpl.
  destruct Hstaged as (-> & _). by rewrite Hcancel.
Qed.

Lemma lookup_afterState_of beforeState result key :
  afterState_of beforeState result !! key =
  b ← beforeState !! key;
  Some match result !! key with
       | Some r => if truthy r then r else b
       | None => b
       end.
Proof. unfold afterState_of. by rewrite map_lookup_imap. Qed.

(** C4, as the code has it.  A transaction with before state [b] whose
    transformation returns the mapping [r] and leaves the transaction to be
    saved commits an after state with exactly the keys of [b]: a key of [b]
    takes the value of [r] when [r] has a truthy value for it, and keeps the
    value of [b] otherwise; keys of [r] that [b] does not have are dropped. *)
Theorem transaction_afterState d b e t d1 r d2 :
  startTransaction (Given b) d = (Ret tt, d1) ->
  t d1 = (Ret (Given r), d2) ->
  staged d2 ->
  exists d' c,
    transaction (Arguments3 (Given b) e (Some t)) d = (Ret tt, d') /\
    done d' = done d2 ++ [c] /\
    dom (after c) = dom b /\
    forall key,
      after c !! key =
      v ← b !! key;
      Some match r !! key with
           | Some w => if truthy w then w else v
           | None => v
           end.
Proof.
  intros Hstart Hrun (Hactive & tx & Hst & Hrec).
  pose proof (replay_recorded_replay _ _ _ Hrec) as Hreplay.
  pose proof (stage_save_ok (afterState_of b r) (Given (or_default e ∅))
                d2 tx _ Hactive Hst Hreplay) as Hsave.
  eexists _, _. split; [|split; [|split]].
  - unfold transaction, clone, try_finally, merge_afterState, stage_finish.
    unfold mbind, M_bind, bind, this, ret.
    rewrite Hstart, Hrun. simpl. rewrite Hactive, Hsave. simpl. done.
  - done.
  - simpl. apply set_eq. intros key.
    rewrite !elem_of_dom, lookup_afterState_of.
    destruct (b !! key); simpl; split; intros [? ?]; done.
  - intros key. simpl. apply lookup_afterState_of.
Qed.

(** ** Examples *)

Example scan_finds_s1 :
  scan_annotations (data loaded) ("p1", "content") 0 11 = [s1].
Proof. evaluate. Qed.

(** The third scenario of section 8: one transaction sets the paragraph's
    text and deletes the annotation; after the commit and an [undo] the store
    is as it was loaded. *)
Example set_and_delete_undone :
  let rewrite_p1 : transformation :=
    stage_set ("p1", "content") (VStr "Hi") ;;
    stage_delete "s1" ;;
    ret Undefined in
  fst ((transaction (Arguments1 (Some rewrite_p1)) ;; undo) loaded) = Ret tt /\
  data (snd ((transaction (Arguments1 (Some rewrite_p1)) ;; undo) loaded))
  = data loaded.
Proof. split; evaluate. Qed.

Example editing_is_staged : staged editing.
Proof. evaluate_staged. Qed.

Example loaded_is_idle : idle loaded.
Proof.
  split; [evaluate|]. eexists. split; [reflexivity|]. split; evaluate.
Qed.

Lemma undo_redo_restores_commit_witness :
  staged editing /\
  exists d1 d2 d3,
    stage_save {["selection" := cursor 12]} Undefined editing = (Ret tt, d1) /\
    undo d1 = (Ret tt, d2) /\
    redo d2 = (Ret tt, d3) /\
    data d2 = data editing /\
    data d3 = data d1 /\
    stage d3 = stage d1 /\
    done d3 = done d1 /\
    undone d3 = undone d1 /\
    isTransacting d3 = isTransacting d1.
Proof.
  assert (H : staged editing) by evaluate_staged.
  exact (conj H (undo_redo_restores_commit editing _ _ H)).
Defined.



Lemma empty_commit_is_pushed_witness :
  exists d',
    _saveTransaction ∅ ∅ Undefined reopened = (Ret tt, d') /\
    done d' = done reopened ++ [{| ops := []; before := ∅; after := ∅ |}] /\
    undone d' = [] /\
    data d' = data reopened /\
    isTransacting d' = false.
Proof.
  eapply (empty_commit_is_pushed reopened); [evaluate|reflexivity|evaluate].
Defined.

(** C1 as stated does not hold: a transaction on a new document whose
    transformation does nothing commits a change without operations, and that
    change is on [done] afterwards. *)
Lemma empty_commit_counterexample :
  empty_transaction.1 = Ret tt /\
  done fresh = [] /\
  done empty_transaction.2 = [{| ops := []; before := ∅; after := ∅ |}].
Proof. repeat split; evaluate. Qed.

Lemma nested_transaction_is_refused_witness :
  isTransacting editing = true /\
  startTransaction Undefined editing = (Throw NestedTransaction, editing) /\
  forall e t,
    transaction (Arguments3 Undefined e (Some t)) editing
    = (Throw NestedTransaction, editing).
Proof.
  assert (H : isTransacting editing = true) by evaluate.
  exact (conj H (nested_transaction_is_refused editing Undefined H)).
Defined.

Lemma commit_empties_undone_replay_does_not_witness :
  undone reopened = [invert brave_change] /\
  undone (snd (_saveTransaction ∅ ∅ Undefined reopened)) = [] /\
  (undone reverted = undone committed ++ [invert brave_change] /\
   done reverted = done loaded /\
   last (emitted reverted)
   = Some (DocumentChanged (invert brave_change) replay_info)) /\
  (undone (snd (redo reverted)) = [] /\
   done (snd (redo reverted))
   = done reverted ++ [invert (invert brave_change)] /\
   last (emitted (snd (redo reverted)))
   = Some (DocumentChanged (invert (invert brave_change)) replay_info)).
Proof.
  split; [evaluate|]. split; [|split].
  - apply (proj1 commit_empties_undone_replay_does_not reopened ∅ ∅ Undefined).
    evaluate.
  - apply (proj1 (proj2 commit_empties_undone_replay_does_not)
             committed (done loaded) brave_change); evaluate.
  - apply (proj2 (proj2 commit_empties_undone_replay_does_not)
             reverted [] (invert brave_change)); evaluate.
Defined.

Lemma exhausted_history_is_logged_witness :
  done fresh = [] /\ undone fresh = [] /\
  undo fresh
  = (Ret tt, set_console (console fresh ++ ["No change can be undone."]) fresh) /\
  redo fresh
  = (Ret tt, set_console (console fresh ++ ["No change can be redone."]) fresh).
Proof.
  assert (H1 : done fresh = []) by evaluate.
  assert (H2 : undone fresh = []) by evaluate.
  exact (conj H1 (conj H2
    (conj (proj1 (exhausted_history_is_logged fresh) H1)
          (proj2 (exhausted_history_is_logged fresh) H2)))).
Defined.

Lemma transaction_afterState_witness :
  exists d' c,
    transaction
      (Arguments3 (Given {["selection" := cursor 6]}) Undefined
         (Some insert_brave)) loaded
    = (Ret tt, d') /\
    done d' = done loaded ++ [c] /\
    dom (after c) = dom ({["selection" := cursor 6]} : state) /\
    forall key,
      after c !! key =
      v ← ({["selection" := cursor 6]} : state) !! key;
      Some match ({["selection" := cursor 12; "note" := VStr "typed"]} : state)
                   !! key with
           | Some w => if truthy w then w else v
           | None => v
           end.
Proof.
  apply (transaction_afterState loaded _ _ insert_brave opened _ typing).
  - evaluate.
  - evaluate.
  - evaluate_staged.
Defined.

(** C4 as stated does not hold: the transformation returns [null] for
    the key [selection], which the before state has, and the committed after
    state keeps the selection of the before state. *)
Lemma falsy_result_counterexample :
  clearing_selection.1 = Ret tt /\
  after <$> last (done clearing_selection.2)
  = Some {["selection" := cursor 6]} /\
  ({["selection" := VNull]} : state) !! "selection" = Some VNull.
Proof. repeat split; evaluate. Qed.

(** ** Loading a snapshot *)

(** C5, on the code.  Loading the snapshot of [p1] into a new document runs as
    a transaction with an empty before state and returns; the change that
    creates [p1] is then on [done] (nothing calls [documentDidLoad], which
    would empty it), so an [undo] takes the loaded node out of the store
    again. *)
Theorem loaded_snapshot_is_on_done :
  fromSnapshot [p1]
  = (Ret tt,
     {| data := {["p1" := entry_of p1]};
        stage := Some {| stage_data := {["p1" := entry_of p1]};
                         stage_ops := []; stage_before := ∅ |};
        isTransacting := false;
        done := [{| ops := [OpCreate p1]; before := ∅; after := ∅ |}];
        undone := [];
        FORCE_TRANSACTIONS := false;
        emitted :=
          [TransactionStarted {| stage_data := ∅; stage_ops := [];
                                 stage_before := ∅ |};
           ProxyDocumentChanged "path"
             {| ops := [OpCreate p1]; before := ∅; after := ∅ |} ∅;
           DocumentChanged
             {| ops := [OpCreate p1]; before := ∅; after := ∅ |} ∅];
        console := [] |}) /\
  data (snd (undo (snd (fromSnapshot [p1])))) = ∅.
Proof. split; evaluate. Qed.

(** ** Annotation queries *)

(** C9. For a selection that is not a property selection, whatever the
    options and whatever the annotation index holds,
    [getAnnotationsForSelection] returns the empty list and has put no
    question to an index. *)
Theorem no_annotations_for_other_selections
    (annotationIndex_get : store -> path -> nat -> nat -> list node)
    (filterByType : string -> node -> bool)
    (sel : selection) (opts : arg options) (d : Document) :
  isPropertySelection sel = false ->
  getAnnotationsForSelection annotationIndex_get filterByType sel opts d
  = ([], []).
Proof. intros Hsel. unfold getAnnotationsForSelection. by rewrite Hsel. Qed.

Lemma no_annotations_for_other_selections_witness :
  isPropertySelection across_body = false /\
  getAnnotationsForSelection scan_annotations has_type across_body
    (Given {| options_container := Some "body"; options_type := Some "strong" |})
    loaded
  = ([], []).
Proof.
  assert (H : isPropertySelection across_body = false) by evaluate.
  exact (conj H (no_annotations_for_other_selections _ _ _ _ _ H)).
Defined.

(** C10. Without a container ([undefined] or [null]),
    [getContainerAnnotationsForSelection] returns the empty list and asks no
    index, whatever the options.  With a container and without options
    ([undefined], as when the argument is left out, or [null]) it throws a
    [TypeError]. *)
Theorem container_query_needs_options
    (typeIndex_get : store -> string -> list node)
    (containerAnnotations_byId : store -> list node)
    (getSelection : store -> node -> selection)
    (overlaps : selection -> selection -> bool)
    (sel : selection) (d : Document) :
  (forall opts,
     getContainerAnnotationsForSelection typeIndex_get
       containerAnnotations_byId getSelection overlaps sel Undefined opts d
     = (Ret [], []) /\
     getContainerAnnotationsForSelection typeIndex_get
       containerAnnotations_byId getSelection overlaps sel Null opts d
     = (Ret [], [])) /\
  (forall container,
     getContainerAnnotationsForSelection typeIndex_get
       containerAnnotations_byId getSelection overlaps sel (Given container)
       Undefined d
     = (Throw TypeError, []) /\
     getContainerAnnotationsForSelection typeIndex_get
       containerAnnotations_byId getSelection overlaps sel (Given container)
       Null d
     = (Throw TypeError, [])).
Proof. by split. Qed.

Example property_selection_finds_s1 :
  getAnnotationsForSelection scan_annotations has_type
    (PropertySelection ("p1", "content") 0 11 false) Undefined loaded
  = ([s1], [AnnotationIndexGet ("p1", "content") 0 11]).
Proof. evaluate. Qed.

(** * Further properties of [document.js] *)

(** ** What a replay and a commit leave alone *)

Lemma same_bookkeeping_refl d : same_bookkeeping d d.
Proof. by repeat split. Qed.

Lemma same_bookkeeping_trans d1 d2 d3 :
  same_bookkeeping d1 d2 -> same_bookkeeping d2 d3 -> same_bookkeeping d1 d3.
Proof.
  intros (? & ? & ? & ? & ? & ?) (? & ? & ? & ? & ? & ?).
  repeat split; congruence.
Qed.

Lemma each_stage_apply_frame ops d r d' :
  each stage_apply_op ops d = (r, d') -> same_bookkeeping d d'.
Proof.
  revert d. induction ops as [|o ops IH]; intros d.
  - intros [= <- <-]. apply same_bookkeeping_refl.
  - rewrite each_cons. unfold stage_apply_op at 1. run.
    destruct (stage d) as [tx|]; simpl.
    + destruct (data_apply o (stage_data tx)); simpl.
      * intros Hrest. apply IH in Hrest.
        eapply same_bookkeeping_trans; [|exact Hrest]. by repeat split.
      * intros [= <- <-]. apply same_bookkeeping_refl.
    + intros [= <- <-]. apply same_bookkeeping_refl.
Qed.

Lemma each_apply_live_frame ops d r d' :
  each apply_live ops d = (r, d') -> same_bookkeeping d d'.
Proof.
  revert d. induction ops as [|o ops IH]; intros d.
  - intros [= <- <-]. apply same_bookkeeping_refl.
  - rewrite each_cons, apply_live_run.
    destruct (data_apply o (data d)); simpl.
    + intros Hrest. apply IH in Hrest.
      eapply same_bookkeeping_trans; [|exact Hrest]. by repeat split.
    + intros [= <- <-]. apply same_bookkeeping_refl.
Qed.

(** However [_apply] ends, it has touched nothing but the two stores. *)
Lemma _apply_frame c mode d r d' :
  _apply c mode d = (r, d') -> same_bookkeeping d d'.
Proof.
  unfold _apply, stage_apply. run.
  destruct (isTransacting d); [intros [= <- <-]; apply same_bookkeeping_refl|].
  destruct mode.
  - destruct (stage d) as [tx|]; simpl;
      [|intros [= <- <-]; apply same_bookkeeping_refl].
    destruct (each stage_apply_op (ops c) d) as [[[]|e] d1] eqn:Hstage.
    + intros Hlive. apply each_stage_apply_frame in Hstage.
      apply each_apply_live_frame in Hlive.
      by eapply same_bookkeeping_trans.
    + intros [= <- <-]. by apply each_stage_apply_frame in Hstage.
  - apply each_apply_live_frame.
Qed.

Lemma _saveTransaction_undone b a i d d' :
  _saveTransaction b a i d = (Ret tt, d') -> undone d' = [].
Proof.
  unfold _saveTransaction, stage_getOperations, _notifyChangeListeners. run.
  destruct (isTransacting d); [|done]. simpl.
  destruct (stage d) as [tx|]; [|done]. simpl.
  destruct (_apply _ SkipStage _) as [[[]|e] d1]; [|done].
  by intros [= <-].
Qed.

(** X1. While a transaction is active, [undo] throws the replay error of
    [_apply] after it has popped the change: the change is off [done] and not
    on [undone], and nothing else of the document has changed.  Likewise
    [redo] with the change it popped off [undone]. *)
Theorem replay_during_transaction_drops_change d rest c :
  isTransacting d = true ->
  (done d = rest ++ [c] ->
   undo d = (Throw ReplayDuringTransaction, set_done rest d)) /\
  (undone d = rest ++ [c] ->
   redo d = (Throw ReplayDuringTransaction, set_undone rest d)).
Proof.
  intros Hactive. split; intros Hstack.
  - unfold undo, _apply. run. by rewrite Hstack, pop_snoc, Hactive.
  - unfold redo, _apply. run. by rewrite Hstack, pop_snoc, Hactive.
Qed.

Lemma replay_during_transaction_drops_change_witness :
  isTransacting editing = true /\
  done editing = [] ++ [seed_change] /\
  undo editing = (Throw ReplayDuringTransaction, set_done [] editing).
Proof.
  assert (H1 : isTransacting editing = true) by evaluate.
  assert (H2 : done editing = [] ++ [seed_change]) by evaluate.
  exact (conj H1 (conj H2
    (proj1 (replay_during_transaction_drops_change editing [] seed_change H1)
       H2))).
Defined.

(** X2. With [FORCE_TRANSACTIONS] set, each of [create], [delete], [set] and
    [update] throws "Use a transaction!" and leaves the document as it is,
    also while a transaction is active. *)
Theorem forced_transactions_refuse_mutations d m :
  FORCE_TRANSACTIONS d = true ->
  perform m d = (Throw UseATransaction, d).
Proof.
  intros Hforce.
  destruct m; unfold perform, create, delete, set, update; run;
    by rewrite Hforce.
Qed.

Lemma forced_transactions_refuse_mutations_witness :
  FORCE_TRANSACTIONS forced = true /\
  isTransacting forced = true /\
  perform (Delete "s1") forced = (Throw UseATransaction, forced).
Proof.
  assert (H : FORCE_TRANSACTIONS forced = true) by evaluate.
  assert (H' : isTransacting forced = true) by evaluate.
  exact (conj H (conj H' (forced_transactions_refuse_mutations forced _ H))).
Defined.

(** X3. While a transaction is active and transactions are not forced, a
    mutation on the document goes to the stage alone: when the stage's store
    accepts it, the call returns, the operation is added to the end of the
    stage's buffer, and the live store, [done] and [undone] are untouched;
    when the stage's store refuses it, the call throws and nothing changes. *)
Theorem mutations_in_transaction_are_staged d m tx :
  FORCE_TRANSACTIONS d = false ->
  isTransacting d = true ->
  stage d = Some tx ->
  perform m d =
  match primitive m (stage_data tx) with
  | Some (o, s') =>
      (Ret tt,
       set_stage (Some {| stage_data := s'; stage_ops := stage_ops tx ++ [o];
                          stage_before := stage_before tx |}) d)
  | None => (Throw InvalidOperation, d)
  end.
Proof.
  intros Hforce Hactive Hst.
  assert (Hrun : stage_mutate (primitive m) d =
    match primitive m (stage_data tx) with
    | Some (o, s') =>
        (Ret tt,
         set_stage (Some {| stage_data := s'; stage_ops := stage_ops tx ++ [o];
                            stage_before := stage_before tx |}) d)
    | None => (Throw InvalidOperation, d)
    end).
  { rewrite (stage_mutate_run _ _ _ Hst), Hactive.
    by destruct (primitive m (stage_data tx)) as [[o s']|]. }
  rewrite <- Hrun.
  destruct m; unfold perform, create, delete, set, update,
    stage_create, stage_delete, stage_set, stage_update; run;
    rewrite Hforce, Hactive; simpl; try done.
  by destruct (stage_mutate (data_create nodeData) d) as [[[]|e] d1].
Qed.

Lemma mutations_in_transaction_are_staged_witness :
  FORCE_TRANSACTIONS editing = false /\
  isTransacting editing = true /\
  data (snd (perform (Delete "s1") editing)) = data editing /\
  fst (perform (Delete "s1") editing) = Ret tt.
Proof.
  assert (H1 : FORCE_TRANSACTIONS editing = false) by evaluate.
  assert (H2 : isTransacting editing = true) by evaluate.
  split; [done|]. split; [done|].
  destruct (stage editing) as [tx|] eqn:Hst; [|by vm_compute in Hst].
  rewrite (mutations_in_transaction_are_staged editing (Delete "s1") tx H1 H2 Hst).
  vm_compute in Hst. injection Hst as <-. split; evaluate.
Defined.

(** ** What [create] returns *)

Lemma data_create_get n s o s' :
  data_create n s = Some (o, s') -> data_get s' (node_id n) = Some n.
Proof.
  unfold data_create, data_get.
  destruct (s !! node_id n); [done|]. intros [= _ <-].
  rewrite lookup_insert_eq. simpl. by rewrite node_of_entry_of.
Qed.

(** X4. Outside a transaction, with the stage mirroring the live store and
    transactions not forced, a [create] that the store accepts returns the
    node it was given, read back from the live store. *)
Theorem create_returns_the_node d n o s' :
  FORCE_TRANSACTIONS d = false ->
  isTransacting d = false ->
  mirrored d ->
  data_create n (data d) = Some (o, s') ->
  exists d',
    create n d = (Ret (Some n), d') /\
    data d' = s' /\
    data_get (data d') (node_id n) = Some n.
Proof.
  intros Hforce Hidle Hmirror Hcreate.
  pose proof (perform_outside d (Create n) Hidle Hmirror) as Hrun.
  rewrite Hforce in Hrun. simpl in Hrun. rewrite Hcreate in Hrun.
  unfold mbind, M_bind, bind, ret in Hrun.
  destruct (create n d) as [[v|e] d1] eqn:Hc; [|done].
  injection Hrun as ->.
  assert (Hv : v = Some n).
  { revert Hc. unfold create. run. rewrite Hforce, Hidle.
    match goal with
    | |- context [let (_, _) := ?x in _] => destruct x as [[[]|e] d2]
    end; [|done].
    intros [= <- Hd]. rewrite Hd. simpl.
    apply (data_create_get _ _ _ _ Hcreate). }
  subst v. eexists. split; [done|]. split; [done|].
  simpl. apply (data_create_get _ _ _ _ Hcreate).
Qed.

Lemma create_returns_the_node_witness :
  FORCE_TRANSACTIONS loaded = false /\
  isTransacting loaded = false /\
  mirrored loaded /\
  exists d',
    create meta loaded = (Ret (Some meta), d') /\
    data d' = <["document" := entry_of meta]> (data loaded) /\
    data_get (data d') (node_id meta) = Some meta.
Proof.
  assert (H1 : FORCE_TRANSACTIONS loaded = false) by evaluate.
  assert (H2 : isTransacting loaded = false) by evaluate.
  assert (H3 : mirrored loaded) by (intros tx [= <-]; evaluate).
  assert (H4 : data_create meta (data loaded)
               = Some (OpCreate meta,
                       <["document" := entry_of meta]> (data loaded)))
    by evaluate.
  exact (conj H1 (conj H2 (conj H3
    (create_returns_the_node loaded meta _ _ H1 H2 H3 H4)))).
Defined.

(** X5. While a transaction is active, [create] puts the node on the stage
    and returns what the live store holds under the node's id: for an id new
    to the live store it returns [undefined], and the live store still has no
    such node. *)
Theorem create_in_transaction_returns_live_node d n tx o s' :
  FORCE_TRANSACTIONS d = false ->
  isTransacting d = true ->
  stage d = Some tx ->
  data_create n (stage_data tx) = Some (o, s') ->
  exists d',
    create n d = (Ret (data_get (data d) (node_id n)), d') /\
    data d' = data d /\
    (data d !! node_id n = None ->
     create n d = (Ret None, d') /\ data_get (data d') (node_id n) = None).
Proof.
  intros Hforce Hactive Hst Hcreate.
  unfold create, stage_create. run. rewrite Hforce, Hactive.
  rewrite (stage_mutate_run _ _ _ Hst), Hcreate. simpl.
  eexists. split; [reflexivity|]. split; [reflexivity|].
  intros Hnew. unfold data_get. simpl. rewrite Hnew. by split.
Qed.

Lemma create_in_transaction_returns_live_node_witness :
  FORCE_TRANSACTIONS editing = false /\
  isTransacting editing = true /\
  exists d',
    create meta editing = (Ret (data_get (data editing) (node_id meta)), d') /\
    data d' = data editing /\
    (data editing !! node_id meta = None ->
     create meta editing = (Ret None, d') /\
     data_get (data d') (node_id meta) = None).
Proof.
  assert (H1 : FORCE_TRANSACTIONS editing = false) by evaluate.
  assert (H2 : isTransacting editing = true) by evaluate.
  split; [done|]. split; [done|].
  destruct (stage editing) as [tx|] eqn:Hst; [|by vm_compute in Hst].
  destruct (data_create meta (stage_data tx)) as [[o s']|] eqn:Hc.
  - exact (create_in_transaction_returns_live_node editing meta tx o s'
             H1 H2 Hst Hc).
  - vm_compute in Hst. injection Hst as <-. by vm_compute in Hc.
Defined.

(** ** How [transaction] ends *)

(** X6. [transaction] checks its transformation before anything else: an
    argument in its place that is not a function makes every form of the call
    throw and leave the document as it is.  Called with the transformation
    alone it runs as with an empty before state and empty event data; called
    with a before state and the transformation, as with empty event data; and
    event data that is [undefined] or [null] counts as empty. *)
Theorem transaction_argument_forms d b e t :
  transaction (Arguments1 None) d = (Throw TransformationRequired, d) /\
  transaction (Arguments2 b None) d = (Throw TransformationRequired, d) /\
  transaction (Arguments3 b e None) d = (Throw TransformationRequired, d) /\
  transaction (Arguments1 (Some t)) d
  = transaction (Arguments3 (Given ∅) (Given ∅) (Some t)) d /\
  transaction (Arguments2 b (Some t)) d
  = transaction (Arguments3 b (Given ∅) (Some t)) d /\
  transaction (Arguments3 b Undefined (Some t)) d
  = transaction (Arguments3 b (Given ∅) (Some t)) d /\
  transaction (Arguments3 b Null (Some t)) d
  = transaction (Arguments3 b (Given ∅) (Some t)) d.
Proof. by repeat split. Qed.

(** X7. A transformation that returns a mapping after it has itself ended the
    transaction (by a save or a cancel of its own): [transaction] neither
    saves nor cancels again and returns with the document as the
    transformation left it. *)
Theorem transaction_leaves_ended_transaction d b e t d1 r d2 :
  startTransaction b d = (Ret tt, d1) ->
  t d1 = (Ret (Given r), d2) ->
  isTransacting d2 = false ->
  transaction (Arguments3 b e (Some t)) d = (Ret tt, d2).
Proof.
  intros Hstart Hrun Hended.
  unfold transaction, clone, try_finally, merge_afterState, stage_finish.
  unfold mbind, M_bind, bind, this, ret.
  rewrite Hstart, Hrun. simpl. rewrite Hended. simpl. by rewrite Hended.
Qed.

Lemma transaction_leaves_ended_transaction_witness :
  transaction (Arguments3 Undefined Undefined (Some edit_and_cancel)) loaded
  = (Ret tt, snd (edit_and_cancel (snd (startTransaction Undefined loaded)))) /\
  done (snd (edit_and_cancel (snd (startTransaction Undefined loaded))))
  = done loaded /\
  data (snd (edit_and_cancel (snd (startTransaction Undefined loaded))))
  = data loaded.
Proof.
  split; [|split; evaluate].
  apply (transaction_leaves_ended_transaction loaded Undefined Undefined
           edit_and_cancel (snd (startTransaction Undefined loaded)) ∅).
  - evaluate.
  - evaluate.
  - evaluate.
Defined.

(** X8. A transformation that throws while its transaction is staged:
    [transaction] throws the same error; before that its [finally] has
    cancelled the transaction, so the stage is back at the live store with an
    empty buffer, no transaction is active, and the live store, [done] and
    [undone] are as the transformation left them. *)
Theorem throwing_transformation_is_cancelled d b e t d1 err d2 :
  startTransaction b d = (Ret tt, d1) ->
  t d1 = (Throw err, d2) ->
  staged d2 ->
  exists d',
    transaction (Arguments3 b e (Some t)) d = (Throw err, d') /\
    idle d' /\
    data d' = data d2 /\ done d' = done d2 /\ undone d' = undone d2.
Proof. apply transaction_throws. Qed.

Lemma throwing_transformation_is_cancelled_witness :
  exists d',
    transaction (Arguments3 Undefined Undefined (Some edit_and_fail)) loaded
    = (Throw InvalidOperation, d') /\
    idle d' /\
    data d' = data loaded /\ done d' = done loaded /\ undone d' = undone loaded.
Proof.
  apply (throwing_transformation_is_cancelled loaded Undefined Undefined
           edit_and_fail (snd (startTransaction Undefined loaded))
           InvalidOperation
           (snd (edit_and_fail (snd (startTransaction Undefined loaded))))).
  - evaluate.
  - evaluate.
  - evaluate_staged.
Defined.

(** X9. A transformation that returns nothing ([undefined] or [null]) while
    its transaction is staged.  With a before state that has a key, the read
    of [result[key]] throws a [TypeError]: [transaction] throws it after its
    [finally] has cancelled the transaction, and nothing is committed.  With
    an empty before state the loop reads nothing and the transaction is
    committed with an empty after state. *)
Theorem transformation_returning_nothing d b e t d1 res d2 :
  startTransaction (Given b) d = (Ret tt, d1) ->
  t d1 = (Ret res, d2) ->
  (forall r, res <> Given r) ->
  staged d2 ->
  (b <> ∅ ->
   exists d',
     transaction (Arguments3 (Given b) e (Some t)) d = (Throw TypeError, d') /\
     idle d' /\
     data d' = data d2 /\ done d' = done d2 /\ undone d' = undone d2) /\
  (b = ∅ ->
   exists d' tx,
     transaction (Arguments3 (Given b) e (Some t)) d = (Ret tt, d') /\
     stage d2 = Some tx /\
     done d' = done d2 ++ [{| ops := stage_ops tx; before := stage_before tx;
                              after := ∅ |}]).
Proof.
  intros Hstart Hrun Hres Hstaged.
  assert (Hmerge : merge_afterState (Given b) res d2 =
                   if bool_decide (b = ∅) then (Ret ∅, d2)
                   else (Throw TypeError, d2)).
  { unfold merge_afterState. destruct res as [| |r]; simpl;
      try (by case_bool_decide). by destruct (Hres r). }
  split; intros Hb.
  - destruct (stage_cancel_idle _ Hstaged) as (d' & Hcancel & Hidle & Hrest).
    exists d'. split; [|done].
    unfold transaction, clone, try_finally, stage_finish.
    unfold mbind, M_bind, bind, this. rewrite Hstart, Hrun, Hmerge.
    rewrite bool_decide_eq_false_2 by done.
    destruct Hstaged as (-> & _). by rewrite Hcancel.
  - destruct Hstaged as (Hactive & tx & Hst & Hrec).
    pose proof (replay_recorded_replay _ _ _ Hrec) as Hreplay.
    pose proof (stage_save_ok ∅ (Given (or_default e ∅)) d2 tx _
                  Hactive Hst Hreplay) as Hsave.
    eexists _, tx. split; [|split; [done|]].
    + unfold transaction, clone, try_finally, stage_finish.
      unfold mbind, M_bind, bind, this. rewrite Hstart, Hrun, Hmerge.
      rewrite bool_decide_eq_true_2 by done.
      rewrite Hactive, Hsave. simpl. done.
    + done.
Qed.

Lemma transformation_returning_nothing_witness :
  exists d',
    transaction
      (Arguments3 (Given {["selection" := cursor 6]}) Undefined
         (Some edit_only)) loaded
    = (Throw TypeError, d') /\
    idle d' /\
    data d' = data loaded /\ done d' = done loaded /\ undone d' = undone loaded.
Proof.
  apply (transformation_returning_nothing loaded {["selection" := cursor 6]}
           Undefined edit_only opened Undefined (snd (edit_only opened))).
  - evaluate.
  - evaluate.
  - done.
  - evaluate_staged.
  - intros Hempty.
    assert (H : ({["selection" := cursor 6]} : state) !! "selection" = None)
      by (by rewrite Hempty).
    by vm_compute in H.
Defined.

(** ** Commits that fail, and what follows a commit *)

(** X10. A commit that throws has recorded nothing: [done] and [undone] are
    as before and no listener was told.  Outside a transaction
    [_saveTransaction] and [_cancelTransaction] throw "Not in a transaction."
    and leave the document as it is. *)
Theorem failed_commit_records_nothing d b a i :
  (forall e d',
     _saveTransaction b a i d = (Throw e, d') ->
     done d' = done d /\ undone d' = undone d /\ emitted d' = emitted d) /\
  (isTransacting d = false ->
   _saveTransaction b a i d = (Throw NotInTransaction, d) /\
   _cancelTransaction d = (Throw NotInTransaction, d)).
Proof.
  split.
  - intros e d'.
    unfold _saveTransaction, stage_getOperations, _notifyChangeListeners. run.
    destruct (isTransacting d); simpl; [|by intros [= _ <-]].
    destruct (stage d) as [tx|]; simpl; [|by intros [= _ <-]].
    destruct (_apply _ SkipStage _) as [[[]|e1] d1] eqn:Happly; [done|].
    intros [= _ <-]. apply _apply_frame in Happly.
    by destruct Happly as (_ & ? & ? & _ & ? & _).
  - intros Hidle. unfold _saveTransaction, _cancelTransaction. run.
    by rewrite Hidle.
Qed.

Lemma failed_commit_records_nothing_witness :
  isTransacting loaded = false /\
  _saveTransaction ∅ ∅ Undefined loaded = (Throw NotInTransaction, loaded) /\
  _cancelTransaction loaded = (Throw NotInTransaction, loaded).
Proof.
  assert (H : isTransacting loaded = false) by evaluate.
  exact (conj H (proj2 (failed_commit_records_nothing loaded ∅ ∅ Undefined) H)).
Defined.

(** X11. Right after a commit that returned there is nothing to redo:
    [redo] returns, writes its message to the console and changes nothing
    else. *)
Theorem redo_after_commit_only_logs d b a i d1 :
  _saveTransaction b a i d = (Ret tt, d1) ->
  redo d1
  = (Ret tt, set_console (console d1 ++ ["No change can be redone."]) d1).
Proof.
  intros Hcommit. apply _saveTransaction_undone in Hcommit.
  unfold redo. run. by rewrite Hcommit.
Qed.

Lemma redo_after_commit_only_logs_witness :
  undone reopened = [invert brave_change] /\
  redo (snd (_saveTransaction ∅ ∅ Undefined reopened))
  = (Ret tt,
     set_console
       (console (snd (_saveTransaction ∅ ∅ Undefined reopened))
        ++ ["No change can be redone."])
       (snd (_saveTransaction ∅ ∅ Undefined reopened))).
Proof.
  split; [evaluate|].
  apply (redo_after_commit_only_logs reopened ∅ ∅ Undefined). evaluate.
Defined.

(** X12. [documentDidLoad] on a document that has its stage returns, empties
    [done] and the stage's buffer and before state, and leaves the stores,
    [undone] and [isTransacting] as they are; an [undo] after it finds
    nothing to undo and only writes its message. *)
Theorem documentDidLoad_forgets_history d tx :
  stage d = Some tx ->
  exists d',
    documentDidLoad d = (Ret tt, d') /\
    done d' = [] /\
    stage d' = Some {| stage_data := stage_data tx; stage_ops := [];
                       stage_before := ∅ |} /\
    data d' = data d /\
    undone d' = undone d /\
    isTransacting d' = isTransacting d /\
    undo d'
    = (Ret tt, set_console (console d' ++ ["No change can be undone."]) d').
Proof.
  intros Hst. unfold documentDidLoad, stage_reset. run. rewrite Hst.
  eexists. split; [reflexivity|]. repeat split. 
Qed.

Lemma documentDidLoad_forgets_history_witness :
  done loaded = [seed_change] /\
  exists d',
    documentDidLoad loaded = (Ret tt, d') /\
    done d' = [] /\
    stage d' = Some {| stage_data := data loaded; stage_ops := [];
                       stage_before := ∅ |} /\
    data d' = data loaded /\
    undone d' = undone loaded /\
    isTransacting d' = isTransacting loaded /\
    undo d'
    = (Ret tt, set_console (console d' ++ ["No change can be undone."]) d').
Proof.
  split; [evaluate|].
  apply (documentDidLoad_forgets_history loaded
           {| stage_data := data loaded; stage_ops := []; stage_before := ∅ |}).
  evaluate.
Defined.

(** ** What the two queries return *)

(** X13. For a property selection, [getAnnotationsForSelection] asks the
    annotation index once, for the selection's path and offsets, and returns
    the index's answer: all of it when [options] has no type (or an empty
    one), and otherwise those annotations that pass the type filter, in the
    index's order. *)
Theorem annotations_for_property_selection
    (annotationIndex_get : store -> path -> nat -> nat -> list node)
    (filterByType : string -> node -> bool)
    (sel : selection) (opts : arg options) (d : Document) :
  isPropertySelection sel = true ->
  let answer :=
    annotationIndex_get (data d) (getPath sel) (getStartOffset sel)
      (getEndOffset sel) in
  let result :=
    getAnnotationsForSelection annotationIndex_get filterByType sel opts d in
  snd result
  = [AnnotationIndexGet (getPath sel) (getStartOffset sel) (getEndOffset sel)] /\
  (type_filter (or_default opts no_options) = None -> fst result = answer) /\
  (forall t,
     type_filter (or_default opts no_options) = Some t ->
     fst result = List.filter (filterByType t) answer /\
     forall anno,
       In anno (fst result) <-> In anno answer /\ filterByType t anno = true).
Proof.
  intros Hsel. unfold getAnnotationsForSelection. rewrite Hsel. simpl.
  split; [done|]. split.
  - by intros ->.
  - intros t ->. split; [done|]. intros anno. apply filter_In.
Qed.

Lemma annotations_for_property_selection_witness :
  isPropertySelection (PropertySelection ("p1", "content") 0 11 false) = true /\
  getAnnotationsForSelection scan_annotations has_type
    (PropertySelection ("p1", "content") 0 11 false)
    (Given {| options_container := None; options_type := Some "emphasis" |})
    loaded
  = ([], [AnnotationIndexGet ("p1", "content") 0 11]).
Proof.
  assert (H : isPropertySelection
                (PropertySelection ("p1", "content") 0 11 false) = true)
    by evaluate.
  split; [done|].
  pose proof (annotations_for_property_selection scan_annotations has_type
                (PropertySelection ("p1", "content") 0 11 false)
                (Given {| options_container := None;
                          options_type := Some "emphasis" |})
                loaded H) as (Hasked & _ & Hfiltered).
  destruct (Hfiltered "emphasis" eq_refl) as (Hresult & _).
  rewrite (surjective_pairing (getAnnotationsForSelection _ _ _ _ _)).
  rewrite Hasked, Hresult. evaluate.
Defined.

(** X14. With a container and options given,
    [getContainerAnnotationsForSelection] returns, in the index's order, the
    candidates whose selection overlaps [sel]: the type index's answer when
    [options] has a type that is not empty, and all container annotations
    otherwise.  Which container is given makes no difference to the
    result. *)
Theorem container_annotations_overlap_selection
    (typeIndex_get : store -> string -> list node)
    (containerAnnotations_byId : store -> list node)
    (getSelection : store -> node -> selection)
    (overlaps : selection -> selection -> bool)
    (sel : selection) (container : node) (o : options) (d : Document) :
  let candidates :=
    match type_filter o with
    | Some t => typeIndex_get (data d) t
    | None => containerAnnotations_byId (data d)
    end in
  let result :=
    getContainerAnnotationsForSelection typeIndex_get containerAnnotations_byId
      getSelection overlaps sel (Given container) (Given o) d in
  (exists annotations,
     fst result = Ret annotations /\
     forall anno,
       In anno annotations <->
       In anno candidates /\ overlaps sel (getSelection (data d) anno) = true) /\
  forall container',
    getContainerAnnotationsForSelection typeIndex_get containerAnnotations_byId
      getSelection overlaps sel (Given container') (Given o) d
    = result.
Proof.
  simpl. split; [|done].
  unfold getContainerAnnotationsForSelection.
  destruct (type_filter o); simpl; eexists; (split; [reflexivity|]);
    intros anno; apply filter_In.
Qed.

(** ** The document's id *)

Lemma data_set_get p v s o s' :
  data_set p v s = Some (o, s') ->
  exists n, data_get s' p.1 = Some n /\ node_props n !! p.2 = Some v.
Proof.
  unfold data_set, data_get.
  destruct (s !! p.1) as [e|]; [|done]. simpl.
  destruct (entry_props e !! p.2); [|done]. simpl.
  intros [= _ <-]. rewrite lookup_insert_eq. simpl.
  eexists. split; [done|]. simpl. by rewrite lookup_insert_eq.
Qed.

(** X15. The document's [id] is read from the live store on every access.
    Without a node ['document'] the read throws a [TypeError].  A [set] of the
    meta node's [guid] that returns outside a transaction is what [id] gives
    next; a [set] made while a transaction is active leaves [id] as it was,
    since the live store has not changed. *)
Theorem id_is_read_from_the_live_store d v :
  (data d !! "document" = None -> get_id d = (Throw TypeError, d)) /\
  (FORCE_TRANSACTIONS d = false ->
   isTransacting d = false ->
   mirrored d ->
   forall o s',
     data_set ("document", "guid") v (data d) = Some (o, s') ->
     exists d',
       set ("document", "guid") v d = (Ret tt, d') /\
       get_id d' = (Ret (Some v), d')) /\
  (isTransacting d = true ->
   forall r d',
     set ("document", "guid") v d = (r, d') ->
     fst (get_id d') = fst (get_id d)).
Proof.
  split; [|split].
  - intros Hnone. unfold get_id, getDocumentMeta, data_get. run.
    by rewrite Hnone.
  - intros Hforce Hidle Hmirror o s' Hset.
    pose proof (perform_outside d (SetValue ("document", "guid") v)
                  Hidle Hmirror) as Hrun.
    rewrite Hforce in Hrun. simpl in Hrun. rewrite Hset in Hrun.
    eexists. split; [exact Hrun|].
    destruct (data_set_get _ _ _ _ _ Hset) as (n & Hn & Hguid).
    unfold get_id, getDocumentMeta. run. simpl in Hn. by rewrite Hn, Hguid.
  - intros Hactive r d'. unfold set, stage_set. run.
    destruct (FORCE_TRANSACTIONS d); [by intros [= _ <-]|].
    rewrite Hactive. unfold stage_mutate. run.
    destruct (stage d) as [tx|]; simpl; [|by intros [= _ <-]].
    destruct (data_set _ v (stage_data tx)) as [[o s']|]; simpl;
      unfold assign; intros [= _ <-]; [|done];
      unfold get_id, getDocumentMeta; run;
      by destruct (data_get (data d) "document").
Qed.

Lemma id_is_read_from_the_live_store_witness :
  get_id loaded = (Throw TypeError, loaded) /\
  get_id titled = (Ret (Some (VStr "doc-1")), titled) /\
  exists d',
    set ("document", "guid") (VStr "doc-2") titled = (Ret tt, d') /\
    get_id d' = (Ret (Some (VStr "doc-2")), d').
Proof.
  split; [|split; [evaluate|]].
  - apply (proj1 (id_is_read_from_the_live_store loaded VNull)). evaluate.
  - eapply (proj1 (proj2 (id_is_read_from_the_live_store titled
                            (VStr "doc-2")))).
    + evaluate.
    + evaluate.
    + intros tx [= <-]. evaluate.
    + evaluate.
Defined.

(** ** Constructing and loading *)

Lemma each_perform_before_stage ms d s :
  stage d = None ->
  isTransacting d = false ->
  FORCE_TRANSACTIONS d = false ->
  primitives ms (data d) = Some s ->
  each perform ms d = (Ret tt, set_data s d).
Proof.
  revert d. induction ms as [|m ms IH]; intros d Hst Hidle Hforce Hprims;
    simpl in Hprims.
  - injection Hprims as <-. by rewrite set_data_id.
  - destruct (primitive m (data d)) as [[o s1]|] eqn:Hprim; [|done].
    simpl in Hprims.
    assert (Hmirror : mirrored d) by (intros tx; by rewrite Hst).
    rewrite each_cons, (perform_outside _ _ Hidle Hmirror), Hforce, Hprim, Hst.
    by rewrite (IH (set_data s1 d)).
Qed.

(** X16. What the class's [initialize] creates, deletes, sets or updates
    runs before the stage exists and goes to the live store alone, without a
    [TypeError]; the constructor then clones the store into the stage.  So
    when the store accepts every mutation of [initialize], the new document
    has them in both stores, no transaction active, and nothing on [done] or
    [undone]: they are not part of the history. *)
Theorem constructed_document_is_mirrored ms s :
  primitives ms ∅ = Some s ->
  new_Document (each perform ms)
  = (Ret tt,
     {| data := s;
        stage := Some {| stage_data := s; stage_ops := []; stage_before := ∅ |};
        isTransacting := false;
        done := []; undone := [];
        FORCE_TRANSACTIONS := false;
        emitted := []; console := [] |}).
Proof.
  intros Hprims. unfold new_Document.
  by rewrite (each_perform_before_stage ms _ s).
Qed.

Lemma constructed_document_is_mirrored_witness :
  new_Document (each perform [Create body; Create p1])
  = (Ret tt,
     {| data := <["p1" := entry_of p1]> (<["body" := entry_of body]> ∅);
        stage := Some {| stage_data :=
                           <["p1" := entry_of p1]> (<["body" := entry_of body]> ∅);
                         stage_ops := []; stage_before := ∅ |};
        isTransacting := false;
        done := []; undone := [];
        FORCE_TRANSACTIONS := false;
        emitted := []; console := [] |}).
Proof.
  apply (constructed_document_is_mirrored [Create body; Create p1]). evaluate.
Defined.

Lemma data_create_op n s o s' :
  data_create n s = Some (o, s') -> o = OpCreate n.
Proof. unfold data_create. destruct (s !! node_id n); [done|]. by intros [= <-]. Qed.

Lemma each_stage_create seed d tx s' :
  isTransacting d = true ->
  stage d = Some tx ->
  replay (OpCreate <$> seed) (stage_data tx) = Some s' ->
  each stage_create seed d
  = (Ret tt,
     set_stage (Some {| stage_data := s';
                        stage_ops := stage_ops tx ++ (OpCreate <$> seed);
                        stage_before := stage_before tx |}) d).
Proof.
  revert d tx. induction seed as [|n seed IH]; intros d tx Hactive Hst Hreplay;
    simpl in Hreplay.
  - injection Hreplay as <-. simpl. rewrite app_nil_r.
    destruct d, tx; simpl in *. by subst.
  - unfold data_apply in Hreplay.
    destruct (data_create n (stage_data tx)) as [[o s1]|] eqn:Hcreate; [|done].
    simpl in Hreplay. pose proof (data_create_op _ _ _ _ Hcreate) as ->.
    rewrite each_cons. unfold stage_create at 1.
    rewrite (stage_mutate_run _ _ _ Hst), Hcreate, Hactive.
    set (tx1 := {| stage_data := s1; stage_ops := stage_ops tx ++ [OpCreate n];
                   stage_before := stage_before tx |}).
    rewrite (IH (set_stage (Some tx1) d) tx1 Hactive eq_refl Hreplay).
    simpl. by rewrite <- app_assoc.
Qed.

(** X17. [loadSeed] on an idle document, for a seed whose nodes the store
    accepts one after the other: it returns, both stores hold the nodes, no
    transaction is left active, [undone] is empty, and [done] has one more
    change, which creates the nodes in the seed's order and has an empty
    before and after state. *)
Theorem loadSeed_commits_the_seed d seed s' :
  idle d ->
  replay (OpCreate <$> seed) (data d) = Some s' ->
  exists d',
    loadSeed seed d = (Ret tt, d') /\
    idle d' /\
    data d' = s' /\
    done d' = done d ++ [{| ops := OpCreate <$> seed; before := ∅; after := ∅ |}] /\
    undone d' = [].
Proof.
  intros (Hidle & tx & Hst & Hdata & Hops) Hreplay.
  set (tx1 := {| stage_data := stage_data tx; stage_ops := stage_ops tx;
                 stage_before := ∅ |}).
  set (d1 := set_emitted (emitted d ++ [TransactionStarted tx1])
               (set_stage (Some tx1) (set_isTransacting true d))).
  assert (Hstart : startTransaction (Given ∅) d = (Ret tt, d1)).
  { unfold startTransaction. run. by rewrite Hidle, Hst. }
  set (tx2 := {| stage_data := s'; stage_ops := stage_ops tx1 ++ (OpCreate <$> seed);
                 stage_before := ∅ |}).
  assert (Hload : each stage_create seed d1 = (Ret tt, set_stage (Some tx2) d1)).
  { apply (each_stage_create seed d1 tx1); [done|done|].
    simpl. by rewrite Hdata. }
  assert (Hreplay2 : replay (stage_ops tx2) (data (set_stage (Some tx2) d1))
                     = Some s')
    by (simpl; by rewrite Hops).
  pose proof (stage_save_ok ∅ (Given ∅) (set_stage (Some tx2) d1) tx2 s'
                eq_refl eq_refl Hreplay2) as Hsave.
  eexists. split.
  - unfold loadSeed, transaction, clone, try_finally, merge_afterState,
      stage_finish, stage_loadSeed.
    unfold mbind, M_bind, bind, this, ret.
    rewrite Hstart, Hload. cbv beta iota.
    rewrite bool_decide_eq_true_2 by done.
    change (isTransacting (set_stage (Some tx2) d1)) with true.
    cbv beta iota. rewrite Hsave. reflexivity.
  - simpl. rewrite Hops. repeat split. by eexists.
Qed.

Lemma loadSeed_commits_the_seed_witness :
  idle fresh /\
  exists d',
    loadSeed [p1; s1] fresh = (Ret tt, d') /\
    idle d' /\
    data d' = <["s1" := entry_of s1]> (<["p1" := entry_of p1]> ∅) /\
    done d' = done fresh ++ [{| ops := OpCreate <$> [p1; s1]; before := ∅;
                                after := ∅ |}] /\
    undone d' = [].
Proof.
  assert (H : idle fresh).
  { split; [evaluate|]. eexists. split; [reflexivity|]. split; evaluate. }
  split; [done|].
  apply (loadSeed_commits_the_seed fresh [p1; s1] _ H). evaluate.
Defined.

(** ** Opening and committing *)

(** X18. [startTransaction] on an idle document returns and marks the
    transaction active; the stage keeps its store, has an empty buffer and
    takes the given before state (an empty one when none is given); the
    stage is handed to the listeners of ['transaction:started']; the live
    store, [done] and [undone] are untouched. *)
Theorem startTransaction_opens_the_stage d b :
  idle d ->
  exists d' tx',
    startTransaction b d = (Ret tt, d') /\
    staged d' /\
    stage d' = Some tx' /\
    stage_data tx' = data d /\
    stage_ops tx' = [] /\
    stage_before tx' = or_default b ∅ /\
    emitted d' = emitted d ++ [TransactionStarted tx'] /\
    data d' = data d /\ done d' = done d /\ undone d' = undone d.
Proof.
  intros (Hidle & tx & Hst & Hdata & Hops).
  unfold startTransaction. run. rewrite Hidle. simpl. rewrite Hst. simpl.
  eexists _, _. split; [reflexivity|]. split; [|by repeat split].
  split; [done|]. eexists. split; [done|]. simpl. by rewrite Hops, Hdata.
Qed.

Lemma startTransaction_opens_the_stage_witness :
  idle loaded /\
  exists d' tx',
    startTransaction (Given {["selection" := cursor 6]}) loaded = (Ret tt, d') /\
    staged d' /\
    stage d' = Some tx' /\
    stage_data tx' = data loaded /\
    stage_ops tx' = [] /\
    stage_before tx' = or_default (Given {["selection" := cursor 6]}) ∅ /\
    emitted d' = emitted loaded ++ [TransactionStarted tx'] /\
    data d' = data loaded /\ done d' = done loaded /\ undone d' = undone loaded.
Proof.
  assert (H : idle loaded).
  { split; [evaluate|]. eexists. split; [reflexivity|]. split; evaluate. }
  exact (conj H (startTransaction_opens_the_stage loaded _ H)).
Defined.

(** X19. A commit of a staged transaction returns without touching the stage
    (it replays with ['skipStage']): the live store takes the buffered
    operations and ends equal to the stage's store, so the two stores hold
    the same data again, and no transaction is active. *)
Theorem commit_brings_live_store_to_stage d b a i :
  staged d ->
  exists d' tx,
    _saveTransaction b a i d = (Ret tt, d') /\
    stage d = Some tx /\
    stage d' = Some tx /\
    data d' = stage_data tx /\
    mirrored d' /\
    isTransacting d' = false.
Proof.
  intros (Hactive & tx & Hst & Hrec).
  pose proof (replay_recorded_replay _ _ _ Hrec) as Hreplay.
  eexists _, tx. split.
  - exact (_saveTransaction_ok b a i d tx _ Hactive Hst Hreplay).
  - repeat split; try done. by intros tx' [= <-].
Qed.

Lemma commit_brings_live_store_to_stage_witness :
  staged editing /\
  exists d' tx,
    _saveTransaction {["selection" := cursor 6]} {["selection" := cursor 12]}
      Undefined editing = (Ret tt, d') /\
    stage editing = Some tx /\
    stage d' = Some tx /\
    data d' = stage_data tx /\
    mirrored d' /\
    isTransacting d' = false.
Proof.
  assert (H : staged editing) by evaluate_staged.
  exact (conj H (commit_brings_live_store_to_stage editing _ _ _ H)).
Defined.
